(** * Verification of the pairing server (server.js and its variants)

    Shallow embedding of the pairing server of king-xer-pair: the /pair
    handler, the [connector] function, its in-memory authentication state,
    the upload loops and the disconnect handling.  JavaScript strings are
    modelled as lists of UTF-16 code units ([jstr]); JavaScript objects used
    as maps are association lists in insertion order, as [Object.keys] and
    [Object.entries] enumerate them. *)

From Stdlib Require Import List Bool ZArith String Ascii Lia.
Import ListNotations.
Open Scope Z_scope.

(** ** JavaScript strings and values *)

(** A JavaScript string: its sequence of UTF-16 code units. *)
Definition jstr := list Z.

(** String literals of the source, which are ASCII, as code units. *)
Definition js (s : string) : jstr :=
  map (fun a => Z.of_nat (nat_of_ascii a)) (list_ascii_of_string s).

Definition jstr_eqb (a b : jstr) : bool :=
  if list_eq_dec Z.eq_dec a b then true else false.

(** Template literal [`${a}/${b}`]. *)
Definition path_join (a b : jstr) : jstr := a ++ js "/" ++ b.

(** The values the code stores: [undefined], [null], booleans, numbers
    (integers; NaN does not occur), strings and Buffers. *)
Inductive jsval :=
| JUndefined
| JNull
| JBool (b : bool)
| JNum (n : Z)
| JStr (s : jstr)
| JBuf (bytes : list Z).

(** ToBoolean: the falsy values are undefined, null, false, 0 and "". *)
Definition truthy (v : jsval) : bool :=
  match v with
  | JUndefined | JNull => false
  | JBool b => b
  | JNum n => negb (n =? 0)
  | JStr s => negb (jstr_eqb s [])
  | JBuf _ => true
  end.

(** ** Phone number normalisation and pairing-code formatting
    (server.js lines 60 and 66) *)
Module PairCode.

(** The character class [0-9]. *)
Definition is_ascii_digit (c : Z) : bool := (48 <=? c) && (c <=? 57).

(** [phoneNumber.replace(/[^0-9]/g, '')]: every code unit matched by
    [[^0-9]] is replaced by the empty string. *)
Fixpoint cleanNumber (s : jstr) : jstr :=
  match s with
  | [] => []
  | c :: s' =>
      if negb (is_ascii_digit c) then cleanNumber s'
      else c :: cleanNumber s'
  end.

(** The code units that [.] does not match: LF, CR, U+2028, U+2029. *)
Definition is_line_terminator (c : Z) : bool :=
  (c =? 10) || (c =? 13) || (c =? 8232) || (c =? 8233).

(** Greedy [.{1,4}] at the head of the input: at most [n] code units, none a
    line terminator; returns the match and the rest. *)
Fixpoint dot_prefix (n : nat) (s : jstr) : jstr * jstr :=
  match n, s with
  | S n', c :: s' =>
      if is_line_terminator c then ([], s)
      else let '(m, r) := dot_prefix n' s' in (c :: m, r)
  | _, _ => ([], s)
  end.

(** The global match loop of [String.prototype.match] for [/.{1,4}/g]: a
    failed attempt advances [lastIndex] by one, a match continues after it. *)
Fixpoint match_all (fuel : nat) (s : jstr) : list jstr :=
  match fuel with
  | O => []
  | S f =>
      match s with
      | [] => []
      | _ :: s' =>
          match dot_prefix 4 s with
          | ([], _) => match_all f s'
          | (m, r) => m :: match_all f r
          end
      end
  end.

(** [code.match(/.{1,4}/g)]: [null] ([None]) when nothing matches. *)
Definition str_match_dot4 (code : jstr) : option (list jstr) :=
  match match_all (List.length code) code with
  | [] => None
  | ms => Some ms
  end.

(** [Array.prototype.join(sep)]. *)
Fixpoint join (sep : jstr) (l : list jstr) : jstr :=
  match l with
  | [] => []
  | [x] => x
  | x :: l' => x ++ sep ++ join sep l'
  end.

(** [code?.match(/.{1,4}/g)?.join('-')]: [None] is [undefined]. *)
Definition formatCode (code : jstr) : option jstr :=
  match str_match_dot4 code with
  | None => None
  | Some gs => Some (join (js "-") gs)
  end.

(** Spec side: the string cut into consecutive groups of four characters
    (the last group possibly shorter). *)
Fixpoint chunks (fuel : nat) (s : jstr) : list jstr :=
  match fuel with
  | O => []
  | S f =>
      match s with
      | [] => []
      | _ => firstn 4 s :: chunks f (skipn 4 s)
      end
  end.

Definition groups_of_four (s : jstr) : list jstr := chunks (List.length s) s.

(** Spec side: the string with every non-digit character removed. *)
Definition strip_nondigits (s : jstr) : jstr :=
  filter (fun c => (48 <=? c) && (c <=? 57)) s.

Definition no_line_terminator (s : jstr) : Prop :=
  Forall (fun c => is_line_terminator c = false) s.

End PairCode.

(** ** The in-memory authentication state of [connector]
    (server.js lines 33-43) *)
Module MemAdapter.

(** [virtualFiles]: a plain object, as its own properties in insertion
    order.  The model is exact for the keys of [plain_key] below. *)
Definition obj := list (jstr * jsval).

Fixpoint obj_get (o : obj) (k : jstr) : option jsval :=
  match o with
  | [] => None
  | (k', v) :: o' => if jstr_eqb k k' then Some v else obj_get o' k
  end.

(** [o[k] = v]: an existing property keeps its place, a new one is added
    last. *)
Fixpoint obj_set (o : obj) (k : jstr) (v : jsval) : obj :=
  match o with
  | [] => [(k, v)]
  | (k', v') :: o' =>
      if jstr_eqb k k' then (k', v) :: o' else (k', v') :: obj_set o' k v
  end.

(** [delete o[k]]: succeeds also when [k] is absent. *)
Fixpoint obj_delete (o : obj) (k : jstr) : obj :=
  match o with
  | [] => []
  | (k', v') :: o' =>
      if jstr_eqb k k' then obj_delete o' k else (k', v') :: obj_delete o' k
  end.

(** [readFile: async (file) => virtualFiles[file] || null]; a missing
    property reads as [undefined], which is falsy too. *)
Definition readFile (o : obj) (file : jstr) : jsval :=
  match obj_get o file with
  | Some v => if truthy v then v else JNull
  | None => JNull
  end.

(** [writeFile: async (file, data) => { virtualFiles[file] = data; }] *)
Definition writeFile (o : obj) (file : jstr) (data : jsval) : obj :=
  obj_set o file data.

(** [removeFile: async (file) => { delete virtualFiles[file]; }] *)
Definition removeFile (o : obj) (file : jstr) : obj := obj_delete o file.

(** [fileExists: async (file) => virtualFiles[file] !== undefined] *)
Definition fileExists (o : obj) (file : jstr) : bool :=
  match obj_get o file with
  | None | Some JUndefined => false
  | Some _ => true
  end.

(** [readDir: async () => Object.keys(virtualFiles)] *)
Definition readDir (o : obj) : list jstr := map fst o.

(** The keys for which [virtualFiles] behaves as [obj]: an own property,
    listed by [Object.keys] in insertion order.  [Object.keys] lists
    integer-like keys before the others, in numeric order; a name of a
    property of [Object.prototype] reads the inherited value when it is
    not an own property, and an assignment to [__proto__] replaces the
    prototype instead of adding a key. *)
Definition proto_names : list jstr :=
  [js "constructor"; js "__proto__"; js "__defineGetter__";
   js "__defineSetter__"; js "__lookupGetter__"; js "__lookupSetter__";
   js "hasOwnProperty"; js "isPrototypeOf"; js "propertyIsEnumerable";
   js "toString"; js "toLocaleString"; js "valueOf"].

Definition integer_like (k : jstr) : bool :=
  match k with
  | [] => false
  | _ => forallb PairCode.is_ascii_digit k
  end.

Definition plain_key (k : jstr) : bool :=
  negb (integer_like k) && negb (existsb (jstr_eqb k) proto_names).

(** [clear: async () => { Object.keys(virtualFiles).forEach(key =>
    delete virtualFiles[key]); }] *)
Definition clear (o : obj) : obj := fold_left obj_delete (map fst o) o.

End MemAdapter.

(** ** Baileys' [DisconnectReason] status codes used by the handlers *)
Definition connectionClosed : Z := 428.
Definition connectionLost : Z := 408.
Definition loggedOut : Z := 401.
Definition restartRequired : Z := 515.

(** ** server.js: the /pair handler and [connector] (lines 31-158) *)
Module Server.
Import PairCode.

(** The outcomes of the external collaborators during one [connector]
    call. *)
Record Oracle := {
  auth_ok : bool;            (* await useMultiFileAuthState(authState) resolves *)
  sock_ok : bool;            (* makeWASocket(...) returns *)
  registered : bool;         (* session.authState.creds.registered *)
  pair_code : option jstr    (* await session.requestPairingCode(..); None: rejects *)
}.

(** The outcomes during one 'open' lifecycle event. *)
Record OpenOracle := {
  put_ok : jstr -> bool;     (* put(path, ..) to the Vercel Blob store resolves *)
  sb_ok : jstr -> bool;      (* supabase upload(path, ..) returns no error *)
  msg_ok : bool;             (* session.sendMessage(..) resolves *)
  image : bool               (* config.IMAGE is set *)
}.

Inductive Handler := OnCredsUpdate | OnConnectionUpdate.

(** What the code does to the outside world, in order. *)
Inductive Effect :=
| EGuardAcquire                          (* await mutex.acquire() *)
| EGuardRelease                          (* release() *)
| ESocket                                (* session = makeWASocket(..) *)
| EPairRequest (n : jstr)                (* session.requestPairingCode(n) *)
| EResponse (status : Z) (code : option jstr)   (* res[.status(..)].json(..) *)
| EListen (h : Handler)                  (* session.ev.on(..) *)
| EPut (path : jstr) (content : jsval)   (* put(path, content, ..) *)
| EUpload (path : jstr) (content : jsval)   (* supabase .upload(path, content) *)
| EMessage                               (* session.sendMessage(..) *)
| EAdapterClear                          (* await authState.clear() *)
| ESessionEnd                            (* session.end() *)
| EReconnect.                            (* connector() from handleDisconnect *)

(** The state: [res.headersSent], the variables [virtualFiles] and
    [sessionId] of the connector call of the /pair request, and the effect
    log. *)
Record St := mkSt {
  headersSent : bool;
  vfiles : MemAdapter.obj;
  sid : jstr;
  log : list Effect
}.

(** Computations that may throw: [None] is a thrown exception. *)
Definition M (A : Type) := St -> option A * St.

Definition ret {A} (a : A) : M A := fun s => (Some a, s).
Definition bind {A B} (m : M A) (k : A -> M B) : M B :=
  fun s => match m s with
           | (Some a, s') => k a s'
           | (None, s') => (None, s')
           end.
Definition throw {A} : M A := fun s => (None, s).

Notation "x <- m ;; k" := (bind m (fun x => k))
  (at level 61, m at next level, right associativity).
Notation "m ;; k" := (bind m (fun _ => k)) (at level 61, right associativity).

Definition emit (e : Effect) : M unit :=
  fun s => (Some tt, mkSt (headersSent s) (vfiles s) (sid s) (log s ++ [e])).

Definition gets {A} (f : St -> A) : M A := fun s => (Some (f s), s).

Definition set_vfiles (o : MemAdapter.obj) : M unit :=
  fun s => (Some tt, mkSt (headersSent s) o (sid s) (log s)).

(** [try { m } catch { h }] *)
Definition try_catch {A} (m : M A) (h : M A) : M A :=
  fun s => match m s with
           | (Some a, s') => (Some a, s')
           | (None, s') => h s'
           end.

(** [try { m } finally { f }]: a throw in [f] wins. *)
Definition try_finally {A} (m : M A) (f : M unit) : M A :=
  fun s => let '(r, s1) := m s in
           let '(r2, s2) := f s1 in
           (match r2 with Some _ => r | None => None end, s2).

(** A promise nobody awaits: its rejection does not reach the caller. *)
Definition detach (m : M unit) : M unit := fun s => (Some tt, snd (m s)).

(** [res.status(status).json({..})]: Express throws when the headers were
    already sent. *)
Definition respond (status : Z) (code : option jstr) : M unit :=
  fun s =>
    let l := log s ++ [EResponse status code] in
    if headersSent s then (None, mkSt true (vfiles s) (sid s) l)
    else (Some tt, mkSt true (vfiles s) (sid s) l).

(** [async function connector(phoneNumber, res)], lines 31-124, up to the
    registration of the handlers; [has_res] is false for the call
    [connector()] of [handleDisconnect], where [res] is undefined. *)
Definition connector (o : Oracle) (phoneNumber : option jstr) (has_res : bool)
  : M unit :=
  (if auth_ok o then ret tt else throw) ;;
  (if sock_ok o then emit ESocket else throw) ;;
  (if negb (registered o) then
     (* await delay(1500) *)
     match phoneNumber with
     | None => throw                  (* phoneNumber.replace: TypeError *)
     | Some p =>
         let clean := cleanNumber p in
         emit (EPairRequest clean) ;;
         match pair_code o with
         | None => throw
         | Some code =>
             if negb has_res then throw   (* res.headersSent: TypeError *)
             else
               sent <- gets headersSent ;;
               if sent then ret tt else respond 200 (formatCode code)
         end
     end
   else ret tt) ;;
  emit (EListen OnCredsUpdate) ;;
  emit (EListen OnConnectionUpdate).

(** [app.get('/pair', ..)], lines 137-158; [None] is an absent
    [req.query.number]. *)
Definition pair_handler (o : Oracle) (number : option jstr) : M unit :=
  match number with
  | None | Some [] => respond 400 None
  | Some _ =>
      emit EGuardAcquire ;;
      try_finally
        (try_catch (connector o number true) (respond 500 None))
        (emit EGuardRelease)
  end.

(** The upload loop of lines 83-99. *)
Fixpoint upload_files (u : OpenOracle) (files : list jstr) : M unit :=
  match files with
  | [] => ret tt
  | file :: rest =>
      fileContent <- gets (fun s => MemAdapter.readFile (vfiles s) file) ;;
      p <- gets (fun s => path_join (sid s) file) ;;
      emit (EPut p fileContent) ;;
      (if put_ok u p then ret tt else throw) ;;
      emit (EUpload p fileContent) ;;
      (if sb_ok u p then ret tt else throw) ;;   (* if (error) throw error *)
      upload_files u rest
  end.

Definition send_message (u : OpenOracle) : M unit :=
  emit EMessage ;; if msg_ok u then ret tt else throw.

(** The [connection === 'open'] branch, lines 77-118. *)
Definition on_open (u : OpenOracle) : M unit :=
  (* await delay(5000) *)
  try_finally
    (try_catch
       (files <- gets (fun s => MemAdapter.readDir (vfiles s)) ;;
        upload_files u files ;;
        send_message u ;;
        (if image u then send_message u else ret tt))
       (ret tt))                                     (* console.error *)
    (o <- gets vfiles ;; set_vfiles (MemAdapter.clear o) ;;
     emit EAdapterClear ;;
     emit ESessionEnd).                               (* if (session) session.end() *)

(** [handleDisconnect(reason)], lines 126-134; [o] is the outcome of the
    new [connector()] call. *)
Definition is_transient (reason : option Z) : bool :=
  match reason with
  | Some r => (r =? connectionLost) || (r =? connectionClosed)
              || (r =? restartRequired)
  | None => false
  end.

Definition handleDisconnect (o : Oracle) (reason : option Z) : M unit :=
  if is_transient reason then
    emit EReconnect ;; detach (connector o None false)
  else emit ESessionEnd.

(** The events the socket emits after [connector] returned. *)
Inductive Update :=
| UOpen (u : OpenOracle)                     (* connection === 'open' *)
| UClose (reason : option Z) (o : Oracle)    (* connection === 'close' *)
| UCreds (file : jstr) (data : jsval)        (* creds.update: a file written *)
| UOther.

(** The [creds.update] and [connection.update] listeners; the promise of
    the async listener is not awaited by the emitter. *)
Definition on_update (ev : Update) : M unit :=
  match ev with
  | UOpen u => detach (on_open u)
  | UClose r o => handleDisconnect o r
  | UCreds f d =>
      o <- gets vfiles ;; set_vfiles (MemAdapter.writeFile o f d)
  | UOther => ret tt
  end.

Definition is_conn_listen (e : Effect) : bool :=
  match e with EListen OnConnectionUpdate => true | _ => false end.

Fixpoint deliver (evs : list Update) : M unit :=
  match evs with
  | [] => ret tt
  | ev :: rest => on_update ev ;; deliver rest
  end.

Definition init (sessionId : jstr) : St := mkSt false [] sessionId [].

(** One /pair request followed by the socket's events, which reach the
    listeners only if [connector] registered them. *)
Definition session_flow (o : Oracle) (number : option jstr)
  (evs : list Update) : M unit :=
  detach (pair_handler o number) ;;
  listening <- gets (fun s => existsb is_conn_listen (log s)) ;;
  if listening then deliver evs else ret tt.

Definition count_eff (p : Effect -> bool) (l : list Effect) : nat :=
  List.length (filter p l).

Definition is_response (e : Effect) : bool :=
  match e with EResponse _ _ => true | _ => false end.
Definition is_release (e : Effect) : bool :=
  match e with EGuardRelease => true | _ => false end.
Definition is_acquire (e : Effect) : bool :=
  match e with EGuardAcquire => true | _ => false end.
Definition is_clear (e : Effect) : bool :=
  match e with EAdapterClear => true | _ => false end.
Definition is_pair_request (e : Effect) : bool :=
  match e with EPairRequest _ => true | _ => false end.
Definition is_put_or_upload (e : Effect) : bool :=
  match e with EPut _ _ | EUpload _ _ => true | _ => false end.

(** When [connector] gets as far as [session.ev.on(..)]: the listeners of
    the socket are registered. *)
Definition listeners_registered (o : Oracle) : bool :=
  auth_ok o && sock_ok o
  && (registered o || match pair_code o with Some _ => true | None => false end).

Definition is_reconnect (e : Effect) : bool :=
  match e with EReconnect => true | _ => false end.

(** The paths given to [put], in order. *)
Definition put_paths (l : list Effect) : list jstr :=
  flat_map (fun e => match e with EPut p _ => [p] | _ => [] end) l.

Definition count_open (evs : list Update) : nat :=
  List.length (filter (fun ev => match ev with UOpen _ => true | _ => false end) evs).

End Server.

(** ** The mutex around [connector] and the lifecycle of the sockets
    (server.js lines 22-23, 117, 126-158), as an interleaving of events *)
Module Guard.

(** Where a /pair request is. *)
Inductive Phase := Idle | Waiting | InConnector | Returned.

Record St := mkSt {
  holder : option nat;      (* the request holding [mutex] *)
  queue : list nat;         (* requests blocked in [mutex.acquire()], FIFO *)
  phase : nat -> Phase;
  live : list nat;          (* sockets made and neither ended nor closed *)
  session : option nat;     (* the module-level variable [session] *)
  next_sock : nat
}.

Inductive Ev :=
| Request (r : nat)                  (* GET /pair with a number: await mutex.acquire() *)
| Return (r : nat)                   (* connector(..) of r settles: finally release() *)
| Open (sock : nat)                  (* 'open' on a socket: upload, then session.end() *)
| Close (sock : nat) (reason : option Z).   (* 'close': handleDisconnect(reason) *)

Definition set_phase (f : nat -> Phase) (r : nat) (ph : Phase) : nat -> Phase :=
  fun x => if Nat.eqb x r then ph else f x.

(** [session = makeWASocket(..)] *)
Definition make_socket (s : St) : St :=
  mkSt (holder s) (queue s) (phase s) (next_sock s :: live s)
       (Some (next_sock s)) (S (next_sock s)).

(** [if (session) session.end()]: ends the socket the variable names now. *)
Definition end_session (s : St) : St :=
  match session s with
  | Some k => mkSt (holder s) (queue s) (phase s)
                   (filter (fun x => negb (Nat.eqb x k)) (live s))
                   (session s) (next_sock s)
  | None => s
  end.

Definition drop_live (k : nat) (s : St) : St :=
  mkSt (holder s) (queue s) (phase s)
       (filter (fun x => negb (Nat.eqb x k)) (live s)) (session s) (next_sock s).

(** Request [r] gets the mutex and runs [connector], which makes its socket. *)
Definition enter (r : nat) (q : list nat) (s : St) : St :=
  make_socket (mkSt (Some r) q (set_phase (phase s) r InConnector)
                    (live s) (session s) (next_sock s)).

Definition step (s : St) (e : Ev) : St :=
  match e with
  | Request r =>
      match phase s r with
      | Idle =>
          match holder s with
          | None => enter r (queue s) s
          | Some _ =>
              mkSt (holder s) (queue s ++ [r]) (set_phase (phase s) r Waiting)
                   (live s) (session s) (next_sock s)
          end
      | _ => s
      end
  | Return r =>
      match holder s with
      | Some h =>
          if Nat.eqb h r then
            let s' := mkSt None (queue s) (set_phase (phase s) r Returned)
                           (live s) (session s) (next_sock s) in
            (* release(): async-mutex hands the lock to the first waiter *)
            match queue s with
            | [] => s'
            | r' :: q => enter r' q s'
            end
          else s
      | None => s
      end
  | Open k => if existsb (Nat.eqb k) (live s) then end_session s else s
  | Close k reason =>
      if existsb (Nat.eqb k) (live s) then
        if Server.is_transient reason
        then make_socket (drop_live k s)      (* connector(): no mutex *)
        else end_session (drop_live k s)
      else s
  end.

Definition init : St := mkSt None [] (fun _ => Idle) [] None 0.

Definition run (evs : list Ev) : St := fold_left step evs init.

End Guard.

(** ** Upload of the session files *)

(** part_001 lines 50-95: [uploadSession(sessionDir)], which skips a file
    that no longer exists, and logs a file whose reading or upload fails and
    goes on. *)
Module Part001.

Record UpOracle := {
  present : jstr -> bool;    (* fs.existsSync(filePath) when the file is reached *)
  read_ok : jstr -> bool;    (* fs.readFileSync(filePath) returns *)
  up_ok : jstr -> bool       (* supabase upload(path, ..) returns no error *)
}.

(** The console line written for each file of the directory. *)
Inductive Outcome :=
| Uploaded (file : jstr)            (* Successfully uploaded ${file} *)
| UploadError (file : jstr)         (* Error uploading file ${file}: *)
| ProcessError (file : jstr)        (* Error processing file ${file}: *)
| Skipped (file : jstr).            (* File ${file} does not exist, skipping *)

Definition outcome_file (x : Outcome) : jstr :=
  match x with Uploaded f | UploadError f | ProcessError f | Skipped f => f end.

Definition failed (x : Outcome) : bool :=
  match x with UploadError _ | ProcessError _ => true | _ => false end.

(** The files whose reading was attempted. *)
Definition attempted (x : Outcome) : bool :=
  match x with Skipped _ => false | _ => true end.

Fixpoint upload_each (o : UpOracle) (sessionId : jstr) (files : list jstr)
  : list Outcome :=
  match files with
  | [] => []
  | file :: rest =>
      (if negb (present o file) then Skipped file     (* continue *)
       else if read_ok o file then
         if up_ok o (path_join sessionId file) then Uploaded file
         else UploadError file
       else ProcessError file) :: upload_each o sessionId rest
  end.

(** [dir] is [None] when the directory does not exist, else
    [fs.readdirSync(sessionDir)]; [sessionId] is
    [crypto.randomBytes(8).toString('hex')].  The result is the returned
    value ([None] for [null]) and the lines logged. *)
Definition uploadSession (o : UpOracle) (dir : option (list jstr))
  (sessionId : jstr) : option jstr * list Outcome :=
  match dir with
  | None => (None, [])
  | Some [] => (None, [])
  | Some files => (Some sessionId, upload_each o sessionId files)
  end.

End Part001.

(** The durable archives: server.js lines 196-215 ([uploadSessionToBlob],
    Vercel Blob) and part_000 lines 79-100 ([SessionManager.uploadSession],
    Supabase storage). *)
Module Archive.
Section WithBlob.
Variable V : Type.

(** A bucket: object paths and their contents. *)
Definition bucket := list (jstr * V).

Fixpoint bucket_get (b : bucket) (p : jstr) : option V :=
  match b with
  | [] => None
  | (p', v) :: b' => if jstr_eqb p p' then Some v else bucket_get b' p
  end.

(** [put(path, content, { addRandomSuffix: false })]: [None] when it
    rejects; the object is stored under [path], replacing an older one. *)
Definition put (put_ok : jstr -> bool) (path : jstr) (content : V) (b : bucket)
  : option bucket :=
  if put_ok path then Some ((path, content) :: b) else None.

(** [for (const [fileName, fileContent] of Object.entries(sessionFiles))]
    with [put]: the first rejection ends the loop. *)
Fixpoint put_all (put_ok : jstr -> bool) (sessionId : jstr)
  (entries : list (jstr * V)) (b : bucket) : option (list jstr) * bucket :=
  match entries with
  | [] => (Some [], b)
  | (fileName, fileContent) :: rest =>
      let path := path_join sessionId fileName in
      match put put_ok path fileContent b with
      | None => (None, b)
      | Some b' =>
          let '(r, b'') := put_all put_ok sessionId rest b' in
          (option_map (fun urls => path :: urls) r, b'')
      end
  end.

(** [uploadSessionToBlob(sessionFiles)] where [Date.now().toString()] is
    [now]: returns [{ sessionId, urls }] (the url of a blob stands for its
    path) or throws ([None]). *)
Definition uploadSessionToBlob (put_ok : jstr -> bool) (now : jstr)
  (sessionFiles : list (jstr * V)) (b : bucket)
  : option (jstr * list jstr) * bucket :=
  let sessionId := now in
  let '(r, b') := put_all put_ok sessionId sessionFiles b in
  (option_map (fun urls => (sessionId, urls)) r, b').

(** Supabase [.upload(path, content)]: an error when the object exists
    already (no upsert) or the request fails. *)
Definition sb_upload (up_ok : jstr -> bool) (path : jstr) (content : V)
  (b : bucket) : option bucket :=
  match bucket_get b path with
  | Some _ => None
  | None => if up_ok path then Some ((path, content) :: b) else None
  end.

(** The loop of [uploadSession]: [false] when an upload failed (the
    objects stored before stay), which ends the loop. *)
Fixpoint upload_files (up_ok : jstr -> bool) (sessionId : jstr)
  (files : list (jstr * V)) (b : bucket) : bool * bucket :=
  match files with
  | [] => (true, b)
  | (file, fileContent) :: rest =>
      match sb_upload up_ok (path_join sessionId file) fileContent b with
      | None => (false, b)                      (* if (error) throw error *)
      | Some b' => upload_files up_ok sessionId rest b'
      end
  end.

(** [SessionManager.uploadSession()]: [files] is [fs.readdir(this.baseDir)]
    with each file's content, [sessionId] is
    [crypto.randomBytes(8).toString('hex')]. *)
Definition uploadSession (up_ok : jstr -> bool) (files : list (jstr * V))
  (sessionId : jstr) (b : bucket) : option jstr * bucket :=
  let '(ok, b') := upload_files up_ok sessionId files b in
  (if ok then Some sessionId else None, b').

End WithBlob.
Arguments bucket_get {V}.
Arguments put_all {V}.
Arguments uploadSessionToBlob {V}.
Arguments upload_files {V}.
Arguments uploadSession {V}.
End Archive.

(** ** The [connection === 'close'] branches of the class-based variant
    (part_000 lines 189-200) and of the directory-based variant (part_001
    lines 176-190); server.js delegates to [Server.handleDisconnect]. *)
Module Disconnect.

Inductive Action :=
| AEndSession                 (* session.end() *)
| ARemoveSessionDir           (* fs.rm / fs.rmSync of the session directory *)
| AReconnectAfter (ms : Z).   (* setTimeout(() => connector(phoneNumber, res), ms) *)

Definition is_logged_out (reason : option Z) : bool :=
  match reason with Some r => r =? loggedOut | None => false end.

(** part_000: [this.cleanup(); await this.sessionManager.cleanupSessionDir()]
    in both branches; [cleanup()] ends [this.session] when it is set. *)
Definition close_part000 (session_set : bool) (reason : option Z)
  : list Action :=
  let cleanup := if session_set then [AEndSession] else [] in
  if is_logged_out reason then cleanup ++ [ARemoveSessionDir]
  else cleanup ++ [ARemoveSessionDir].

(** part_001: [session.end()] and [fs.rmSync] on logout, a reconnect after
    5 s otherwise. *)
Definition close_part001 (session_set dir_exists : bool) (reason : option Z)
  : list Action :=
  if is_logged_out reason then
    (if session_set then [AEndSession] else [])
      ++ (if dir_exists then [ARemoveSessionDir] else [])
  else [AReconnectAfter 5000].

Definition count_reconnect (l : list Action) : nat :=
  List.length (filter (fun a => match a with AReconnectAfter _ => true | _ => false end) l).

End Disconnect.

(** ** The adapter of the second server.js variant (lines 221-239), which
    keys [sessionFiles] by [path.basename] of the path it is given *)
Module BasenameAdapter.

(** The loop of Node's POSIX [path.basename(path)] run from the end of the
    path: trailing slashes are skipped until a character other than '/'
    was seen ([seen]), then the characters up to the next '/' are kept. *)
Fixpoint basename_rev (r : jstr) (seen : bool) : jstr :=
  match r with
  | [] => []
  | c :: r' =>
      if c =? 47 then (if seen then [] else basename_rev r' false)
      else c :: basename_rev r' true
  end.

Definition basename (p : jstr) : jstr := rev (basename_rev (rev p) false).

(** [readFile: async (filePath) => sessionFiles[path.basename(filePath)] || null] *)
Definition readFile (o : MemAdapter.obj) (filePath : jstr) : jsval :=
  MemAdapter.readFile o (basename filePath).

(** [writeFile: async (filePath, data) => { sessionFiles[path.basename(filePath)] = data; }] *)
Definition writeFile (o : MemAdapter.obj) (filePath : jstr) (data : jsval)
  : MemAdapter.obj :=
  MemAdapter.writeFile o (basename filePath) data.

(** [removeFile: async (filePath) => { delete sessionFiles[path.basename(filePath)]; }] *)
Definition removeFile (o : MemAdapter.obj) (filePath : jstr) : MemAdapter.obj :=
  MemAdapter.removeFile o (basename filePath).

End BasenameAdapter.

(** ** part_002: the 'open' branch of its [connection.update] listener
    (lines 88-133) *)
Module Part002.
Import Server.

(** [authState.saveCreds()]: [virtualFiles['creds.json'] =
    JSON.stringify(authState.state.creds)]; [creds_json] is the string. *)
Definition saveCreds (creds_json : jsval) : M unit :=
  o <- gets vfiles ;;
  set_vfiles (MemAdapter.obj_set o (js "creds.json") creds_json).

(** [authState.saveKeys()]: [virtualFiles[`${id}.json`] = JSON.stringify(key)]
    for each entry of [authState.state.keys], given with its string. *)
Fixpoint saveKeys (keys : list (jstr * jsval)) : M unit :=
  match keys with
  | [] => ret tt
  | (id, key) :: rest =>
      o <- gets vfiles ;;
      set_vfiles (MemAdapter.obj_set o (id ++ js ".json") key) ;;
      saveKeys rest
  end.

(** [for (const [fileName, fileContent] of Object.entries(virtualFiles))]:
    [put] and the Supabase upload of each entry, [if (error) throw error]. *)
Fixpoint upload_entries (u : OpenOracle) (entries : MemAdapter.obj) : M unit :=
  match entries with
  | [] => ret tt
  | (fileName, fileContent) :: rest =>
      p <- gets (fun s => path_join (sid s) fileName) ;;
      emit (EPut p fileContent) ;;
      (if put_ok u p then ret tt else throw) ;;
      emit (EUpload p fileContent) ;;
      (if sb_ok u p then ret tt else throw) ;;
      upload_entries u rest
  end.

(** The [connection === 'open'] branch.  Its [finally] block starts with
    [virtualFiles = {}], an assignment to a [const] binding, which throws a
    TypeError: [session.end()] after it is never reached. *)
Definition on_open (u : OpenOracle) (keys : list (jstr * jsval))
  (creds_json : jsval) : M unit :=
  (* await delay(5000) *)
  try_finally
    (try_catch
       (saveKeys keys ;;
        saveCreds creds_json ;;
        entries <- gets vfiles ;;
        upload_entries u entries ;;
        send_message u ;;
        (if image u then send_message u else ret tt))
       (ret tt))                                     (* console.error *)
    throw.                                           (* virtualFiles = {} *)

End Part002.

(** ** The directory-based variants: part_000 ([WhatsAppConnector],
    lines 104-238) and part_001 ([connector], lines 98-233), with their
    /pair handlers and [connection.update] listeners *)
Module DirFlow.
Import PairCode.

Inductive Effect :=
| FGuardAcquire                          (* await mutex.acquire() *)
| FGuardRelease                          (* release() *)
| FMkdir                                 (* mkdir of the session directory *)
| FSocket                                (* makeWASocket(..) *)
| FListen (h : Server.Handler)           (* session.ev.on(..) *)
| FPairRequest (n : jstr)                (* requestPairingCode(n) *)
| FResponse (status : Z) (code : option jstr)   (* res[.status(..)].json/send *)
| FRemoveDir                             (* rm of the session directory *)
| FMessage                               (* session.sendMessage(..) *)
| FSignal                                (* sendDashboardSignal('paircode') *)
| FSessionEnd                            (* session.end() *)
| FTimer.                                (* setTimeout(() => connector(..), 5000) *)

(** [res.headersSent]; whether './temp_session' exists; whether the
    socket's [connection.update] listener is registered on a socket still
    open; the session variable ([session] of part_001, [this.session] of
    part_000) is set; the reconnect timers pending; the effects. *)
Record St := mkSt {
  headersSent : bool;
  dir_exists : bool;
  listening : bool;
  session_set : bool;
  timers : nat;
  log : list Effect
}.

Definition M (A : Type) := St -> option A * St.

Definition ret {A} (a : A) : M A := fun s => (Some a, s).
Definition bind {A B} (m : M A) (k : A -> M B) : M B :=
  fun s => match m s with
           | (Some a, s') => k a s'
           | (None, s') => (None, s')
           end.
Definition throw {A} : M A := fun s => (None, s).

Notation "x <- m ;; k" := (bind m (fun x => k))
  (at level 61, m at next level, right associativity).
Notation "m ;; k" := (bind m (fun _ => k)) (at level 61, right associativity).

Definition gets {A} (f : St -> A) : M A := fun s => (Some (f s), s).
Definition modify (f : St -> St) : M unit := fun s => (Some tt, f s).

Definition emit (e : Effect) : M unit :=
  modify (fun s => mkSt (headersSent s) (dir_exists s) (listening s)
                        (session_set s) (timers s) (log s ++ [e])).
Definition set_dir (b : bool) : M unit :=
  modify (fun s => mkSt (headersSent s) b (listening s) (session_set s)
                        (timers s) (log s)).
Definition set_listening (b : bool) : M unit :=
  modify (fun s => mkSt (headersSent s) (dir_exists s) b (session_set s)
                        (timers s) (log s)).
Definition set_session (b : bool) : M unit :=
  modify (fun s => mkSt (headersSent s) (dir_exists s) (listening s) b
                        (timers s) (log s)).
Definition set_timers (n : nat) : M unit :=
  modify (fun s => mkSt (headersSent s) (dir_exists s) (listening s)
                        (session_set s) n (log s)).

Definition try_catch {A} (m : M A) (h : M A) : M A :=
  fun s => match m s with
           | (Some a, s') => (Some a, s')
           | (None, s') => h s'
           end.

Definition try_finally {A} (m : M A) (f : M unit) : M A :=
  fun s => let '(r, s1) := m s in
           let '(r2, s2) := f s1 in
           (match r2 with Some _ => r | None => None end, s2).

Definition detach (m : M unit) : M unit := fun s => (Some tt, snd (m s)).

(** A response write: Express throws when the headers were sent. *)
Definition respond (status : Z) (code : option jstr) : M unit :=
  fun s =>
    let l := log s ++ [FResponse status code] in
    (if headersSent s then None else Some tt,
     mkSt true (dir_exists s) (listening s) (session_set s) (timers s) l).

(** [if (!res.headersSent) res...] *)
Definition respond_if_unsent (status : Z) (code : option jstr) : M unit :=
  sent <- gets headersSent ;;
  if sent then ret tt else respond status code.

(** The outcomes of the collaborators during one connector call. *)
Record Oracle := {
  mkdir_ok : bool;          (* fs.mkdirSync / fs.mkdir of the directory *)
  auth_ok : bool;           (* useMultiFileAuthState(sessionDir) *)
  version_ok : bool;        (* fetchLatestBaileysVersion() *)
  sock_ok : bool;           (* makeWASocket(..) *)
  registered : bool;        (* session.authState.creds.registered *)
  pair_code : option jstr;  (* requestPairingCode(..); None: rejects *)
  rm_ok : bool              (* fs.rmSync / fs.rm of the directory *)
}.

(** part_001 [if (!fs.existsSync(sessionDir)) fs.mkdirSync(..)]; part_000
    [ensureSessionDir]: [fs.access], and [fs.mkdir] when it fails. *)
Definition ensure_dir (o : Oracle) : M unit :=
  ex <- gets dir_exists ;;
  if ex then ret tt
  else if mkdir_ok o then emit FMkdir ;; set_dir true else throw.

(** [if (fs.existsSync(sessionDir)) fs.rmSync(sessionDir, ..)] *)
Definition remove_dir (ok : bool) : M unit :=
  ex <- gets dir_exists ;;
  if ex then (if ok then emit FRemoveDir ;; set_dir false else throw)
  else ret tt.

(** [session = makeWASocket(..)]: a new socket, no listener yet. *)
Definition make_socket : M unit :=
  emit FSocket ;; set_session true ;; set_listening false.

Definition listen_conn : M unit :=
  emit (FListen Server.OnConnectionUpdate) ;; set_listening true.

(** The pairing block, the same in both variants: [false] when the
    [catch] branch ends the function with [return]. *)
Definition pairing (o : Oracle) (phoneNumber : jstr) : M bool :=
  (* await delay(1500) *)
  emit (FPairRequest (cleanNumber phoneNumber)) ;;
  match pair_code o with
  | Some code => respond_if_unsent 200 (formatCode code) ;; ret true
  | None => respond_if_unsent 500 None ;; ret false
  end.

(** The /pair handler, the same in both variants (part_000 lines 213-238,
    part_001 lines 209-233). *)
Definition pair_route (conn : jstr -> M unit) (number : option jstr) : M unit :=
  match number with
  | None | Some [] => respond 400 None
  | Some p =>
      emit FGuardAcquire ;;
      try_finally
        (try_catch (conn p) (respond_if_unsent 500 None))
        (emit FGuardRelease)
  end.

Definition init (dir : bool) : St := mkSt false dir false false 0 [].

Definition count_eff (p : Effect -> bool) (l : list Effect) : nat :=
  List.length (filter p l).

Definition is_response (e : Effect) : bool :=
  match e with FResponse _ _ => true | _ => false end.
Definition is_session_end (e : Effect) : bool :=
  match e with FSessionEnd => true | _ => false end.

Definition responses (l : list Effect) : list Effect := filter is_response l.

End DirFlow.

(** part_001's [connector] and its listener. *)
Module Part001Conn.
Import PairCode DirFlow.

(** [async function connector(phoneNumber, res)], lines 98-206. *)
Definition connector (o : Oracle) (phoneNumber : jstr) : M unit :=
  try_catch
    (ensure_dir o ;;
     (if auth_ok o then ret tt else throw) ;;
     (if version_ok o then ret tt else throw) ;;
     (if sock_ok o then make_socket else throw) ;;
     emit (FListen Server.OnCredsUpdate) ;;
     cont <- (if negb (registered o) then pairing o phoneNumber else ret true) ;;
     if cont then listen_conn else ret tt)
    (respond_if_unsent 500 None ;; remove_dir (rm_ok o)).

Definition pair_handler (o : Oracle) (number : option jstr) : M unit :=
  pair_route (connector o) number.

(** The events: an 'open' (the files [fs.readdirSync] lists, the upload
    outcomes, the minted id, whether [sendMessage] resolves, whether
    [fs.rmSync] succeeds), a 'close', and a reconnect timer firing. *)
Inductive Update :=
| OpenEv (files : list jstr) (u : Part001.UpOracle) (sessionId : jstr)
         (msg_ok rm_ok : bool)
| CloseEv (reason : option Z) (rm_ok : bool)
| TimerEv (o : Oracle).

(** Lines 145-175. *)
Definition on_open (files : list jstr) (u : Part001.UpOracle) (sessionId : jstr)
  (msg_ok rm_ok : bool) : M unit :=
  (* await delay(5000) *)
  try_finally
    (try_catch
       (dir <- gets (fun s => if dir_exists s then Some files else None) ;;
        match fst (Part001.uploadSession u dir sessionId) with
        | Some _ => emit FMessage ;;
                    if msg_ok then emit FSignal else throw
        | None => ret tt                 (* No session files to upload *)
        end)
       (ret tt))                         (* console.error *)
    (try_catch (remove_dir rm_ok) (ret tt)).

(** Lines 176-190: the socket is closed. *)
Definition on_close (reason : option Z) (rm_ok : bool) : M unit :=
  set_listening false ;;
  if Disconnect.is_logged_out reason then
    (ss <- gets session_set ;; if ss then emit FSessionEnd else ret tt) ;;
    remove_dir rm_ok
  else
    emit FTimer ;;
    n <- gets timers ;; set_timers (S n).

Definition on_update (phoneNumber : jstr) (ev : Update) : M unit :=
  match ev with
  | OpenEv files u sessionId msg_ok rm_ok =>
      l <- gets listening ;;
      if l then detach (on_open files u sessionId msg_ok rm_ok) else ret tt
  | CloseEv reason rm_ok =>
      l <- gets listening ;;
      if l then detach (on_close reason rm_ok) else ret tt
  | TimerEv o =>
      n <- gets timers ;;
      match n with
      | O => ret tt
      | S n' => set_timers n' ;; detach (connector o phoneNumber)
      end
  end.

Fixpoint deliver (phoneNumber : jstr) (evs : list Update) : M unit :=
  match evs with
  | [] => ret tt
  | ev :: rest => on_update phoneNumber ev ;; deliver phoneNumber rest
  end.

(** One /pair request, then the events of its socket and of the sockets of
    its reconnects. *)
Definition flow (o : Oracle) (number : option jstr) (evs : list Update)
  : M unit :=
  detach (pair_handler o number) ;;
  match number with
  | Some (c :: rest) => deliver (c :: rest) evs
  | _ => ret tt
  end.

End Part001Conn.

(** part_000's [WhatsAppConnector] and its listener. *)
Module Part000Conn.
Import PairCode DirFlow.

(** [cleanupSessionDir()]: an error of [fs.rm] is logged. *)
Definition cleanupSessionDir (ok : bool) : M unit :=
  try_catch (remove_dir ok) (ret tt).

(** [cleanup()]: [if (this.session) { this.session.end(); this.session = null; }] *)
Definition cleanup : M unit :=
  ss <- gets session_set ;;
  if ss then emit FSessionEnd ;; set_session false else ret tt.

(** [initialize(phoneNumber, res)], lines 110-164. *)
Definition initialize (o : Oracle) (phoneNumber : jstr) : M unit :=
  ensure_dir o ;;
  try_catch
    ((if auth_ok o then ret tt else throw) ;;
     (if version_ok o then ret tt else throw) ;;
     (if sock_ok o then make_socket else throw) ;;
     emit (FListen Server.OnCredsUpdate) ;;
     cont <- (if negb (registered o) then pairing o phoneNumber else ret true) ;;
     if cont then listen_conn else ret tt)      (* setupConnectionHandlers *)
    (respond_if_unsent 500 None ;; cleanupSessionDir (rm_ok o)).

Definition pair_handler (o : Oracle) (number : option jstr) : M unit :=
  pair_route (initialize o) number.

(** The events: an 'open' (whether [uploadSession] resolves, whether
    [sendMessage] resolves, whether [fs.rm] succeeds) and a 'close'. *)
Inductive Update :=
| OpenEv (up_ok msg_ok rm_ok : bool)
| CloseEv (reason : option Z) (rm_ok : bool).

(** Lines 170-188; [this.session.sendMessage(this.session.user.id, ..)]
    throws a TypeError once [cleanup()] has set [this.session] to null. *)
Definition on_open (up_ok msg_ok rm_ok : bool) : M unit :=
  (* await delay(3000) *)
  try_finally
    (try_catch
       ((if up_ok then ret tt else throw) ;;
        ss <- gets session_set ;;
        (if ss then emit FMessage else throw) ;;
        (if msg_ok then emit FSignal else throw))
       (ret tt))                         (* console.error *)
    (cleanupSessionDir rm_ok ;; cleanup).

(** Lines 189-200: the same cleanup on both branches. *)
Definition on_close (reason : option Z) (rm_ok : bool) : M unit :=
  if Disconnect.is_logged_out reason then cleanup ;; cleanupSessionDir rm_ok
  else cleanup ;; cleanupSessionDir rm_ok.

(** The listener stays registered on the ended socket: every event the
    socket emits reaches it. *)
Definition on_update (ev : Update) : M unit :=
  l <- gets listening ;;
  if l then
    match ev with
    | OpenEv up_ok msg_ok rm_ok => detach (on_open up_ok msg_ok rm_ok)
    | CloseEv reason rm_ok => detach (on_close reason rm_ok)
    end
  else ret tt.

Fixpoint deliver (evs : list Update) : M unit :=
  match evs with
  | [] => ret tt
  | ev :: rest => on_update ev ;; deliver rest
  end.

Definition flow (o : Oracle) (number : option jstr) (evs : list Update)
  : M unit :=
  detach (pair_handler o number) ;; deliver evs.

End Part000Conn.

(** * Proofs *)

Lemma jstr_eqb_eq : forall a b, jstr_eqb a b = true <-> a = b.
Proof.
  intros a b; unfold jstr_eqb; destruct (list_eq_dec Z.eq_dec a b); split;
    congruence.
Qed.

Lemma jstr_eqb_refl : forall a, jstr_eqb a a = true.
Proof. intro a; apply jstr_eqb_eq; reflexivity. Qed.

(** ** Counting the effects a computation of [Server] adds to the log *)
Module ServerFacts.
Import Server.

Section Counting.
Variable p : Effect -> bool.

Definition Adds (n : nat) {A} (m : M A) : Prop :=
  forall s, count_eff p (log (snd (m s))) = (count_eff p (log s) + n)%nat.

Lemma count_eff_snoc : forall l e,
  count_eff p (l ++ [e]) = (count_eff p l + if p e then 1 else 0)%nat.
Proof.
  intros l e; unfold count_eff; rewrite filter_app, length_app; simpl.
  destruct (p e); reflexivity.
Qed.

Lemma adds_ret : forall A (a : A), Adds 0 (ret a).
Proof. intros A a s; simpl; lia. Qed.

Lemma adds_throw : forall A, Adds 0 (@throw A).
Proof. intros A s; simpl; lia. Qed.

Lemma adds_gets : forall A (f : St -> A), Adds 0 (gets f).
Proof. intros A f s; simpl; lia. Qed.

Lemma adds_set_vfiles : forall o, Adds 0 (set_vfiles o).
Proof. intros o s; simpl; lia. Qed.

Lemma adds_emit : forall e, p e = false -> Adds 0 (emit e).
Proof. intros e He s; simpl; rewrite count_eff_snoc, He; lia. Qed.

Lemma adds_emit1 : forall e, p e = true -> Adds 1 (emit e).
Proof. intros e He s; simpl; rewrite count_eff_snoc, He; lia. Qed.

Lemma adds_respond : forall st c,
  p (EResponse st c) = false -> Adds 0 (respond st c).
Proof.
  intros st c He s; unfold respond; destruct (headersSent s); simpl;
    rewrite count_eff_snoc, He; lia.
Qed.

Lemma adds_bind0 : forall A B (m : M A) (k : A -> M B),
  Adds 0 m -> (forall a, Adds 0 (k a)) -> Adds 0 (bind m k).
Proof.
  intros A B m k Hm Hk s; unfold bind.
  specialize (Hm s); destruct (m s) as [[a|] s']; simpl in *.
  - rewrite Hk; lia.
  - exact Hm.
Qed.

(** A computation that never throws. *)
Definition Safe {A} (m : M A) : Prop := forall s, fst (m s) <> None.

Lemma adds_bind_safe : forall A B n1 n2 (m : M A) (k : A -> M B),
  Adds n1 m -> Safe m -> (forall a, Adds n2 (k a)) -> Adds (n1 + n2) (bind m k).
Proof.
  intros A B n1 n2 m k Hm Hs Hk s; unfold bind.
  specialize (Hm s); specialize (Hs s); destruct (m s) as [[a|] s']; simpl in *.
  - rewrite Hk; lia.
  - congruence.
Qed.

Lemma adds_try_catch : forall A (m h : M A),
  Adds 0 m -> Adds 0 h -> Adds 0 (try_catch m h).
Proof.
  intros A m h Hm Hh s; unfold try_catch.
  specialize (Hm s); destruct (m s) as [[a|] s']; simpl in *.
  - exact Hm.
  - rewrite Hh; lia.
Qed.

Lemma adds_try_finally : forall A n (m : M A) (f : M unit),
  Adds 0 m -> Adds n f -> Adds n (try_finally m f).
Proof.
  intros A n m f Hm Hf s; unfold try_finally.
  specialize (Hm s); destruct (m s) as [r s1]; simpl in Hm.
  specialize (Hf s1); destruct (f s1) as [r2 s2]; simpl in *; lia.
Qed.

Lemma adds_detach : forall n (m : M unit), Adds n m -> Adds n (detach m).
Proof. intros n m Hm s; unfold detach; simpl; apply Hm. Qed.

End Counting.

Create HintDb adds.
#[export] Hint Resolve adds_ret adds_throw adds_gets adds_set_vfiles : adds.

(** One step of the decomposition of a computation that adds nothing. *)
Ltac adds0_step :=
  match goal with
  | |- Adds _ 0 (bind _ _) => apply adds_bind0; [ | intro ]
  | |- Adds _ 0 (try_catch _ _) => apply adds_try_catch
  | |- Adds _ _ (detach _) => apply adds_detach
  | |- Adds _ 0 (emit _) => apply adds_emit
  | |- Adds _ 0 (respond _ _) => apply adds_respond
  | |- Adds _ 0 (if ?b then _ else _) => destruct b
  | |- Adds _ 0 (match ?x with _ => _ end) => destruct x
  | |- Adds _ 0 _ => solve [ auto with adds ]
  end.

(** The effects that only the /pair handler itself produces. *)
Definition handler_only (p : Effect -> bool) : Prop :=
  forall e, p e = true ->
  is_pair_request e || is_response e || is_acquire e || is_release e = true.

Ltac handler_only_false H :=
  match goal with
  | |- ?p ?e = false =>
      destruct (p e) eqn:E; [ apply H in E; discriminate E | reflexivity ]
  end.

Lemma upload_files_adds : forall p u files,
  (forall x c, p (EPut x c) = false) -> (forall x c, p (EUpload x c) = false) ->
  Adds p 0 (upload_files u files).
Proof.
  intros p u files H1 H2; induction files as [|file rest IH]; simpl.
  - auto with adds.
  - repeat (adds0_step; try apply H1; try apply H2); exact IH.
Qed.

Lemma on_open_safe_clear : forall u,
  Adds is_clear 1 (on_open u).
Proof.
  intro u; unfold on_open; apply adds_try_finally.
  - apply adds_try_catch; [ | auto with adds ].
    apply adds_bind0; [ auto with adds | intro files ].
    apply adds_bind0; [ apply upload_files_adds; reflexivity | intros _ ].
    unfold send_message.
    repeat (adds0_step; try reflexivity).
  - replace 1%nat with (0 + (0 + (1 + 0)))%nat by reflexivity.
    apply adds_bind_safe; [ auto with adds | intros s; discriminate | intro o ].
    apply adds_bind_safe; [ auto with adds | intros s; discriminate | intros _ ].
    apply adds_bind_safe; [ apply adds_emit1; reflexivity
                          | intros s; discriminate | intros _ ].
    apply adds_emit; reflexivity.
Qed.

Lemma send_message_adds : forall p u,
  p EMessage = false -> Adds p 0 (send_message u).
Proof. intros p u H; unfold send_message; repeat adds0_step; exact H. Qed.

Lemma on_open_adds : forall p u, handler_only p -> Adds p 0 (on_open u).
Proof.
  intros p u H; unfold on_open; apply adds_try_finally.
  - apply adds_try_catch; [ | auto with adds ].
    apply adds_bind0; [ auto with adds | intro files ].
    apply adds_bind0;
      [ apply upload_files_adds; intros; handler_only_false H | intros _ ].
    apply adds_bind0;
      [ apply send_message_adds; handler_only_false H | intros _ ].
    destruct (image u);
      [ apply send_message_adds; handler_only_false H | auto with adds ].
  - repeat (adds0_step; try handler_only_false H).
Qed.

(** The [connector()] of a reconnect neither asks for a pairing code nor
    answers: [phoneNumber] and [res] are undefined there. *)
Lemma connector_reconnect_adds : forall p o,
  handler_only p -> Adds p 0 (connector o None false).
Proof.
  intros p o H; unfold connector.
  repeat (adds0_step; try handler_only_false H).
Qed.

Lemma connector_reconnect_clear : forall o,
  Adds is_clear 0 (connector o None false).
Proof.
  intros o; unfold connector; repeat (adds0_step; try reflexivity).
Qed.

Lemma on_update_adds : forall p ev, handler_only p -> Adds p 0 (on_update ev).
Proof.
  intros p ev H; destruct ev as [u|r o|f d|]; simpl.
  - apply adds_detach, on_open_adds, H.
  - unfold handleDisconnect; destruct (is_transient r).
    + apply adds_bind0; [ apply adds_emit; handler_only_false H | intros _ ].
      apply adds_detach, connector_reconnect_adds, H.
    + apply adds_emit; handler_only_false H.
  - repeat adds0_step.
  - auto with adds.
Qed.

Definition is_open_ev (ev : Update) : nat :=
  match ev with UOpen _ => 1 | _ => 0 end.

Lemma on_update_clear : forall ev, Adds is_clear (is_open_ev ev) (on_update ev).
Proof.
  intros ev; destruct ev as [u|r o|f d|]; simpl.
  - apply adds_detach, on_open_safe_clear.
  - unfold handleDisconnect; destruct (is_transient r).
    + apply adds_bind0; [ apply adds_emit; reflexivity | intros _ ].
      apply adds_detach, connector_reconnect_clear.
    + apply adds_emit; reflexivity.
  - repeat adds0_step.
  - auto with adds.
Qed.

Lemma on_update_safe : forall ev, Safe (on_update ev).
Proof.
  intros ev s; destruct ev as [u|r o|f d|]; simpl; try discriminate.
  unfold handleDisconnect; destruct (is_transient r); discriminate.
Qed.

Lemma deliver_adds : forall p evs, handler_only p -> Adds p 0 (deliver evs).
Proof.
  intros p evs H; induction evs as [|ev rest IH]; simpl.
  - auto with adds.
  - apply adds_bind0; [ apply on_update_adds, H | intros _; exact IH ].
Qed.

Lemma deliver_clear : forall evs, Adds is_clear (count_open evs) (deliver evs).
Proof.
  induction evs as [|ev rest IH]; simpl.
  - auto with adds.
  - replace (count_open (ev :: rest))
      with (is_open_ev ev + count_open rest)%nat by (destruct ev; reflexivity).
    apply adds_bind_safe;
      [ apply on_update_clear | apply on_update_safe | intros _; exact IH ].
Qed.

(** The handler's own effects are all made by the /pair handler. *)
Lemma flow_handler_only : forall p o number evs s,
  handler_only p ->
  count_eff p (log (snd (session_flow o number evs s)))
  = count_eff p (log (snd (pair_handler o number s))).
Proof.
  intros p o number evs s H; unfold session_flow, bind, detach, gets; simpl.
  destruct (existsb is_conn_listen (log (snd (pair_handler o number s)))).
  - rewrite (deliver_adds p evs H); lia.
  - simpl; lia.
Qed.

Lemma flow_clear : forall o number evs s,
  count_eff is_clear (log (snd (session_flow o number evs s)))
  = (count_eff is_clear (log (snd (pair_handler o number s)))
     + if existsb is_conn_listen (log (snd (pair_handler o number s)))
       then count_open evs else 0)%nat.
Proof.
  intros o number evs s; unfold session_flow, bind, detach, gets; simpl.
  destruct (existsb is_conn_listen (log (snd (pair_handler o number s)))).
  - apply deliver_clear.
  - simpl; lia.
Qed.

End ServerFacts.

(** ** What a computation of [Server] appends to the log *)
Module ReleaseFacts.
Import Server.

Definition Appends (P : Effect -> Prop) {A} (m : M A) : Prop :=
  forall s, exists l, log (snd (m s)) = log s ++ l /\ Forall P l.

Section Appending.
Variable P : Effect -> Prop.

Lemma app_ret : forall A (a : A), Appends P (ret a).
Proof. intros A a s; exists []; rewrite app_nil_r; auto. Qed.

Lemma app_throw : forall A, Appends P (@throw A).
Proof. intros A s; exists []; rewrite app_nil_r; auto. Qed.

Lemma app_gets : forall A (f : St -> A), Appends P (gets f).
Proof. intros A f s; exists []; rewrite app_nil_r; auto. Qed.

Lemma app_set_vfiles : forall o, Appends P (set_vfiles o).
Proof. intros o s; exists []; rewrite app_nil_r; auto. Qed.

Lemma app_emit : forall e, P e -> Appends P (emit e).
Proof. intros e He s; exists [e]; auto. Qed.

Lemma app_respond : forall st c, P (EResponse st c) -> Appends P (respond st c).
Proof.
  intros st c He s; exists [EResponse st c]; unfold respond.
  destruct (headersSent s); auto.
Qed.

Lemma app_bind : forall A B (m : M A) (k : A -> M B),
  Appends P m -> (forall a, Appends P (k a)) -> Appends P (bind m k).
Proof.
  intros A B m k Hm Hk s; unfold bind.
  destruct (Hm s) as [l1 [E1 F1]]; destruct (m s) as [[a|] s1]; simpl in *.
  - destruct (Hk a s1) as [l2 [E2 F2]]; exists (l1 ++ l2).
    rewrite E2, E1, app_assoc; split; [ reflexivity | apply Forall_app; auto ].
  - exists l1; auto.
Qed.

Lemma app_try_catch : forall A (m h : M A),
  Appends P m -> Appends P h -> Appends P (try_catch m h).
Proof.
  intros A m h Hm Hh s; unfold try_catch.
  destruct (Hm s) as [l1 [E1 F1]]; destruct (m s) as [[a|] s1]; simpl in *.
  - exists l1; auto.
  - destruct (Hh s1) as [l2 [E2 F2]]; exists (l1 ++ l2).
    rewrite E2, E1, app_assoc; split; [ reflexivity | apply Forall_app; auto ].
Qed.

Lemma app_try_finally : forall A (m : M A) (f : M unit),
  Appends P m -> Appends P f -> Appends P (try_finally m f).
Proof.
  intros A m f Hm Hf s; unfold try_finally.
  destruct (Hm s) as [l1 [E1 F1]]; destruct (m s) as [r s1]; simpl in E1.
  destruct (Hf s1) as [l2 [E2 F2]]; destruct (f s1) as [r2 s2]; simpl in *.
  exists (l1 ++ l2); rewrite E2, E1, app_assoc; split; [ reflexivity | ].
  apply Forall_app; auto.
Qed.

Lemma app_detach : forall (m : M unit), Appends P m -> Appends P (detach m).
Proof. intros m Hm s; unfold detach; simpl; apply Hm. Qed.

End Appending.

Ltac app_step :=
  match goal with
  | |- Appends _ (bind _ _) => apply app_bind; [ | intro ]
  | |- Appends _ (try_catch _ _) => apply app_try_catch
  | |- Appends _ (try_finally _ _) => apply app_try_finally
  | |- Appends _ (detach _) => apply app_detach
  | |- Appends _ (emit _) => apply app_emit
  | |- Appends _ (respond _ _) => apply app_respond
  | |- Appends _ (ret _) => apply app_ret
  | |- Appends _ throw => apply app_throw
  | |- Appends _ (gets _) => apply app_gets
  | |- Appends _ (set_vfiles _) => apply app_set_vfiles
  | |- Appends _ (if ?b then _ else _) => destruct b
  | |- Appends _ (match ?x with _ => _ end) => destruct x
  end.

(** The effects of [connector]: none of them touches the mutex or cleans
    up. *)
Definition conn_eff (e : Effect) : Prop :=
  e <> EGuardAcquire /\ e <> EGuardRelease /\ e <> EAdapterClear /\
  e <> ESessionEnd.

Definition no_guard (e : Effect) : Prop := e <> EGuardAcquire /\ e <> EGuardRelease.

Lemma connector_appends : forall o n h, Appends conn_eff (connector o n h).
Proof.
  intros o n h; unfold connector;
    repeat (app_step; try (repeat split; discriminate)).
Qed.

Lemma upload_files_appends : forall u files, Appends no_guard (upload_files u files).
Proof.
  intros u files; induction files as [|f rest IH]; simpl;
    repeat (app_step; try (split; discriminate)); exact IH.
Qed.

Lemma deliver_appends : forall evs, Appends no_guard (deliver evs).
Proof.
  induction evs as [|ev rest IH]; simpl; [ apply app_ret | ].
  apply app_bind; [ | intros _; exact IH ].
  destruct ev as [u|r o|f d|]; simpl.
  - apply app_detach; unfold on_open, send_message.
    repeat (app_step; try (split; discriminate)); apply upload_files_appends.
  - unfold handleDisconnect; destruct (is_transient r).
    + apply app_bind; [ apply app_emit; split; discriminate | intros _ ].
      apply app_detach; intros s.
      destruct (connector_appends o None false s) as [l [E F]].
      exists l; split; [ exact E | ].
      eapply Forall_impl; [ | exact F ]; intros e [H1 [H2 _]]; split; assumption.
    + apply app_emit; split; discriminate.
  - repeat app_step.
  - apply app_ret.
Qed.

(** When its listeners get registered, [connector] returns normally and
    registered the lifecycle listener among the effects it appended. *)
Lemma connector_listens : forall o q s,
  listeners_registered o = true ->
  fst (connector o (Some q) true s) = Some tt /\
  exists l, log (snd (connector o (Some q) true s)) = log s ++ l /\
            In (EListen OnConnectionUpdate) l.
Proof.
  intros o q s H; unfold listeners_registered in H; unfold connector.
  destruct (auth_ok o), (sock_ok o); try discriminate; simpl in H.
  destruct (registered o); simpl.
  - split; [ reflexivity | ].
    eexists; split; [ rewrite <- !app_assoc; reflexivity | simpl; tauto ].
  - destruct (pair_code o) as [code|]; [ | discriminate ].
    unfold bind, gets, emit, respond; simpl.
    destruct (headersSent s); simpl; (split; [ reflexivity | ]);
      (eexists; split; [ rewrite <- !app_assoc; reflexivity | simpl; tauto ]).
Qed.

(** The /pair handler with a number takes the mutex, runs [connector] and
    its 500 answer, and releases the mutex last. *)
Lemma pair_handler_release : forall o c p s,
  exists l1,
    log (snd (pair_handler o (Some (c :: p)) s))
      = log s ++ EGuardAcquire :: l1 ++ [EGuardRelease] /\
    Forall conn_eff l1 /\
    (listeners_registered o = true -> In (EListen OnConnectionUpdate) l1).
Proof.
  intros o c p s.
  set (s1 := mkSt (headersSent s) (vfiles s) (sid s) (log s ++ [EGuardAcquire])).
  change (pair_handler o (Some (c :: p)) s)
    with (try_finally (try_catch (connector o (Some (c :: p)) true) (respond 500 None))
                      (emit EGuardRelease) s1).
  destruct (app_try_catch conn_eff _ _ _ (connector_appends o (Some (c :: p)) true)
              (app_respond conn_eff 500 None ltac:(repeat split; discriminate)) s1)
    as [l1 [E1 F1]].
  exists l1; split; [ | split; [ exact F1 | ] ].
  - unfold try_finally; destruct (try_catch _ _ s1) as [r s2]; simpl in E1 |- *.
    rewrite E1; subst s1; simpl; rewrite <- !app_assoc; reflexivity.
  - intros H.
    destruct (connector_listens o (c :: p) s1 H) as [Hr [l [E L]]].
    unfold try_catch in E1.
    unfold jstr in Hr, E; destruct (connector o (Some (c :: p)) true s1) as [r s2] eqn:Ec.
    cbn [fst snd] in Hr, E; subst r.
    simpl in E1; rewrite E in E1; apply app_inv_head in E1; subst l; exact L.
Qed.

(** One /pair request with a number and the events of its socket: the mutex
    is taken, [connector] runs, the mutex is released, and only then the
    lifecycle events (cleanup, reconnects) run, none of which takes it. *)
Lemma session_flow_release : forall o c p evs s,
  exists l1 l2,
    log (snd (session_flow o (Some (c :: p)) evs s))
      = log s ++ EGuardAcquire :: l1 ++ EGuardRelease :: l2 /\
    Forall conn_eff l1 /\
    (listeners_registered o = true -> In (EListen OnConnectionUpdate) l1) /\
    Forall no_guard l2.
Proof.
  intros o c p evs s.
  destruct (pair_handler_release o c p s) as [l1 [E1 [F1 L1]]].
  cbv beta iota delta [session_flow bind detach gets].
  unfold jstr in *; set (s1 := snd (pair_handler o (Some (c :: p)) s)) in *.
  destruct (existsb is_conn_listen (log s1)).
  - destruct (deliver_appends evs s1) as [l2 [E2 F2]].
    exists l1, l2; rewrite E2, E1; split; [ | auto ].
    rewrite <- !app_assoc; simpl; rewrite <- !app_assoc; reflexivity.
  - exists l1, []; simpl; rewrite E1; split; [ | auto ].
    reflexivity.
Qed.

End ReleaseFacts.

(** ** The /pair handler of server.js *)
Module ServerClaims.
Import PairCode Server ServerFacts.

Lemma count_eff_zero_notin : forall q l e,
  count_eff q l = 0%nat -> In e l -> q e = false.
Proof.
  intros q l e H Hin; destruct (q e) eqn:E; [ | reflexivity ].
  assert (In e (filter q l)) by (apply filter_In; auto).
  unfold count_eff in H; destruct (filter q l); [ contradiction | discriminate ].
Qed.

Lemma count_eff_pos_in : forall q l,
  (0 < count_eff q l)%nat -> exists e, In e l /\ q e = true.
Proof.
  intros q l H; unfold count_eff in H.
  destruct (filter q l) as [|e r] eqn:E; simpl in H; [ lia | ].
  exists e; apply filter_In; rewrite E; left; reflexivity.
Qed.

Lemma cleanNumber_strip : forall s, cleanNumber s = strip_nondigits s.
Proof.
  induction s as [|c s IH]; simpl; [ reflexivity | ].
  unfold is_ascii_digit; destruct ((48 <=? c) && (c <=? 57)); simpl;
    rewrite IH; reflexivity.
Qed.

Lemma handler_only_response : handler_only is_response.
Proof. intros e H; rewrite H; destruct (is_pair_request e); reflexivity. Qed.

Lemma handler_only_release : handler_only is_release.
Proof. intros e H; rewrite H; repeat rewrite orb_true_r; reflexivity. Qed.

Lemma handler_only_acquire : handler_only is_acquire.
Proof.
  intros e H; rewrite H; destruct (is_pair_request e), (is_response e);
    reflexivity.
Qed.

Lemma handler_only_pair_request : handler_only is_pair_request.
Proof. intros e H; rewrite H; reflexivity. Qed.

Definition pair_request_is (n0 : jstr) (e : Effect) : bool :=
  match e with EPairRequest n => jstr_eqb n n0 | _ => false end.

Definition pair_request_not (n0 : jstr) (e : Effect) : bool :=
  match e with EPairRequest n => negb (jstr_eqb n n0) | _ => false end.

Lemma handler_only_pair_request_is : forall n0, handler_only (pair_request_is n0).
Proof. intros n0 [] H; try discriminate H; reflexivity. Qed.

Lemma handler_only_pair_request_not : forall n0,
  handler_only (pair_request_not n0).
Proof. intros n0 [] H; try discriminate H; reflexivity. Qed.

(** Case analysis on the outcomes of one /pair request. *)
Ltac pair_cases o :=
  destruct o as [[] [] [] [c|]]; vm_compute.

(** C2: a /pair request gets at most one response written to it, on every
    path: the 400 answer, the pairing code, the 500 answer of the catch
    branch, and whatever the socket's lifecycle events (uploads, reconnects)
    do afterwards; no write is attempted once one was made. *)
Theorem pair_response_at_most_once : forall o number evs sessionId,
  (count_eff is_response
     (log (snd (session_flow o number evs (init sessionId)))) <= 1)%nat.
Proof.
  intros o number evs sessionId.
  rewrite (flow_handler_only _ _ _ _ _ handler_only_response).
  destruct number as [[|d ds]|]; [ vm_compute; lia | | vm_compute; lia ].
  pair_cases o; lia.
Qed.

(** The outcomes of a request whose pairing-code request is rejected. *)
Definition o_pair_rejected : Oracle :=
  {| auth_ok := true; sock_ok := true; registered := false; pair_code := None |}.

Definition u_all_ok : OpenOracle :=
  {| put_ok := fun _ => true; sb_ok := fun _ => true; msg_ok := true;
     image := false |}.

(** C3 (counterexample): when [requestPairingCode] rejects, the guard is
    released once but the in-memory adapter is never cleared: the
    [connection.update] listener that would clear it was never registered,
    so even an 'open' event does nothing. *)
Lemma cleanup_once_counterexample :
  let l := log (snd (session_flow o_pair_rejected (Some (js "+1 (555) 123-4567"))
                       [UOpen u_all_ok] (init (js "1700000000000")))) in
  count_eff is_release l = 1%nat /\ count_eff is_clear l = 0%nat.
Proof. vm_compute; split; reflexivity. Qed.

(** C3 (amended): every /pair request with a number takes and releases the
    guard exactly once, whatever the outcome; the adapter is cleared once
    per 'open' event, and only if [connector] registered its listeners,
    which it does not when the pairing-code request fails. *)
Theorem guard_released_once : forall o p evs sessionId,
  p <> [] ->
  let l := log (snd (session_flow o (Some p) evs (init sessionId))) in
  count_eff is_acquire l = 1%nat /\ count_eff is_release l = 1%nat /\
  count_eff is_clear l =
    (if listeners_registered o then count_open evs else 0)%nat.
Proof.
  intros o p evs sessionId Hp l; subst l.
  rewrite (flow_handler_only _ _ _ _ _ handler_only_acquire),
          (flow_handler_only _ _ _ _ _ handler_only_release), flow_clear.
  destruct p as [|d ds]; [ congruence | ].
  pair_cases o; repeat split.
Qed.

Lemma guard_released_once_witness :
  js "+1 (555) 123-4567" <> [] /\
  count_eff is_release
    (log (snd (session_flow o_pair_rejected (Some (js "+1 (555) 123-4567"))
                 [UOpen u_all_ok] (init (js "1"))))) = 1%nat.
Proof.
  split; [ discriminate | ].
  apply (guard_released_once o_pair_rejected (js "+1 (555) 123-4567")
           [UOpen u_all_ok] (js "1")); discriminate.
Defined.

(** C8: the number given to [requestPairingCode] is the caller's string with
    every non-digit removed: no other number is ever requested, also after
    reconnects, and it is requested whenever the loaded credentials are not
    registered; "+1 (555) 123-4567" becomes "15551234567". *)
Theorem pair_request_number : forall o p evs sessionId,
  p <> [] ->
  let l := log (snd (session_flow o (Some p) evs (init sessionId))) in
  (forall n, In (EPairRequest n) l -> n = strip_nondigits p) /\
  (auth_ok o = true -> sock_ok o = true -> registered o = false ->
   In (EPairRequest (strip_nondigits p)) l) /\
  strip_nondigits (js "+1 (555) 123-4567") = js "15551234567".
Proof.
  intros o p evs sessionId Hp l; subst l; split; [ | split ].
  - intros n Hin.
    assert (H0 : count_eff (pair_request_not (strip_nondigits p))
                   (log (snd (session_flow o (Some p) evs (init sessionId))))
                 = 0%nat).
    { rewrite (flow_handler_only _ _ _ _ _ (handler_only_pair_request_not _)).
      destruct p as [|d ds]; [ congruence | ].
      destruct o as [[] [] [] [c|]];
        cbn -[cleanNumber strip_nondigits formatCode jstr_eqb];
        rewrite ?cleanNumber_strip, ?jstr_eqb_refl; reflexivity. }
    pose proof (count_eff_zero_notin _ _ _ H0 Hin) as Hf; simpl in Hf.
    destruct (jstr_eqb n (strip_nondigits p)) eqn:E; [ | discriminate ].
    apply jstr_eqb_eq, E.
  - intros Ha Hs Hr.
    assert (H1 : count_eff (pair_request_is (strip_nondigits p))
                   (log (snd (session_flow o (Some p) evs (init sessionId))))
                 = 1%nat).
    { rewrite (flow_handler_only _ _ _ _ _ (handler_only_pair_request_is _)).
      destruct p as [|d ds]; [ congruence | ].
      destruct o as [auth sock reg code]; simpl in Ha, Hs, Hr; subst.
      destruct code; cbn -[cleanNumber strip_nondigits formatCode jstr_eqb];
        rewrite cleanNumber_strip, jstr_eqb_refl; reflexivity. }
    destruct (count_eff_pos_in _ _ (eq_ind_r (fun k => (0 < k)%nat)
                                      (Nat.lt_0_1) H1)) as [e [Hin He]].
    destruct e; try discriminate He; simpl in He.
    apply jstr_eqb_eq in He; subst; exact Hin.
  - reflexivity.
Qed.

Definition o_unregistered : Oracle :=
  {| auth_ok := true; sock_ok := true; registered := false;
     pair_code := Some (js "ABCD1234") |}.

Lemma pair_request_number_witness :
  js "+1 (555) 123-4567" <> [] /\
  In (EPairRequest (js "15551234567"))
     (log (snd (session_flow o_unregistered (Some (js "+1 (555) 123-4567"))
                  [] (init (js "1"))))).
Proof.
  split; [ discriminate | ].
  destruct (pair_request_number o_unregistered (js "+1 (555) 123-4567") []
              (js "1")) as [_ [H _]]; [ discriminate | ].
  apply H; reflexivity.
Defined.

(** C10: when the loaded credentials are already registered, the /pair
    request makes the socket, registers the [creds.update] and
    [connection.update] listeners and releases the guard: no pairing code is
    requested and no response is written, neither then nor by any later
    lifecycle event. *)
Theorem registered_no_pairing : forall o p evs sessionId,
  p <> [] -> auth_ok o = true -> sock_ok o = true -> registered o = true ->
  log (snd (pair_handler o (Some p) (init sessionId)))
    = [EGuardAcquire; ESocket; EListen OnCredsUpdate;
       EListen OnConnectionUpdate; EGuardRelease] /\
  count_eff is_response
    (log (snd (session_flow o (Some p) evs (init sessionId)))) = 0%nat /\
  count_eff is_pair_request
    (log (snd (session_flow o (Some p) evs (init sessionId)))) = 0%nat.
Proof.
  intros o p evs sessionId Hp Ha Hs Hr.
  destruct p as [|d ds]; [ congruence | ].
  destruct o as [auth sock reg code]; simpl in Ha, Hs, Hr; subst.
  rewrite (flow_handler_only _ _ _ _ _ handler_only_response),
          (flow_handler_only _ _ _ _ _ handler_only_pair_request).
  vm_compute; repeat split.
Qed.

Definition o_registered : Oracle :=
  {| auth_ok := true; sock_ok := true; registered := true; pair_code := None |}.

Lemma registered_no_pairing_witness :
  count_eff is_response
    (log (snd (session_flow o_registered (Some (js "15551234567"))
                 [UOpen u_all_ok] (init (js "1"))))) = 0%nat.
Proof.
  destruct (registered_no_pairing o_registered (js "15551234567")
              [UOpen u_all_ok] (js "1")) as [_ [H _]];
    [ discriminate | reflexivity | reflexivity | reflexivity | exact H ].
Defined.

End ServerClaims.

(** ** Formatting of the pairing code *)
Module PairCodeClaims.
Import PairCode.

Lemma dot_prefix_plain : forall n s,
  no_line_terminator s -> dot_prefix n s = (firstn n s, skipn n s).
Proof.
  induction n as [|n IH]; intros [|c s] H; simpl; try reflexivity.
  inversion H as [|? ? Hc Hs]; subst.
  rewrite Hc, (IH s Hs); reflexivity.
Qed.

Lemma no_line_terminator_skipn : forall n s,
  no_line_terminator s -> no_line_terminator (skipn n s).
Proof.
  induction n as [|n IH]; intros s H; [ exact H | ].
  destruct s as [|c s]; simpl; [ constructor | ].
  inversion H; subst; apply IH; assumption.
Qed.

Lemma match_all_plain : forall f s,
  no_line_terminator s -> match_all f s = chunks f s.
Proof.
  induction f as [|f IH]; intros s H; [ reflexivity | ].
  destruct s as [|c s']; [ reflexivity | ].
  cbn [match_all chunks].
  rewrite (dot_prefix_plain 4 (c :: s') H); simpl.
  rewrite IH; [ reflexivity | ].
  apply (no_line_terminator_skipn 4 (c :: s') H).
Qed.

(** C9: a raw pairing code (a non-empty string of characters that [.]
    matches, as the protocol's alphanumeric codes are) is returned to the
    caller cut into groups of four characters joined by '-';
    "ABCD1234" becomes "ABCD-1234". *)
Theorem formatCode_groups : forall code,
  code <> [] -> no_line_terminator code ->
  formatCode code = Some (join (js "-") (groups_of_four code)) /\
  formatCode (js "ABCD1234") = Some (js "ABCD-1234").
Proof.
  intros code Hne Hlt; split; [ | reflexivity ].
  unfold formatCode, str_match_dot4, groups_of_four.
  rewrite match_all_plain by exact Hlt.
  destruct code as [|c s]; [ congruence | reflexivity ].
Qed.

Lemma formatCode_groups_witness :
  formatCode (js "ABCD1234") = Some (join (js "-") (groups_of_four (js "ABCD1234"))).
Proof.
  apply formatCode_groups; [ discriminate | ].
  unfold no_line_terminator; repeat constructor.
Defined.

End PairCodeClaims.

(** ** The mutex *)
Module GuardClaims.
Import Guard.

(** The invariant of the mutex: the holder is the one request inside
    [connector], the queue holds exactly the waiting requests, once each. *)
Definition Inv (s : St) : Prop :=
  (forall r, holder s = Some r <-> phase s r = InConnector) /\
  (forall r, In r (queue s) <-> phase s r = Waiting) /\
  NoDup (queue s).

Lemma set_phase_same : forall f r ph, set_phase f r ph r = ph.
Proof. intros f r ph; unfold set_phase; rewrite Nat.eqb_refl; reflexivity. Qed.

Lemma set_phase_other : forall f r x ph, x <> r -> set_phase f r ph x = f x.
Proof.
  intros f r x ph H; unfold set_phase.
  destruct (Nat.eqb_spec x r); [ contradiction | reflexivity ].
Qed.

Lemma end_session_guard : forall s,
  holder (end_session s) = holder s /\ queue (end_session s) = queue s /\
  phase (end_session s) = phase s.
Proof. intros s; unfold end_session; destruct (session s); auto. Qed.

Lemma inv_make_socket : forall s, Inv s -> Inv (make_socket s).
Proof. intros s H; exact H. Qed.

Lemma inv_drop_live : forall k s, Inv s -> Inv (drop_live k s).
Proof. intros k s H; exact H. Qed.

Lemma inv_end_session : forall s, Inv s -> Inv (end_session s).
Proof.
  intros s H; destruct (end_session_guard s) as [E1 [E2 E3]].
  unfold Inv; rewrite E1, E2, E3; exact H.
Qed.

(** Request [r] enters [connector] with the queue [q]. *)
Lemma inv_enter : forall r q s,
  (forall x, x <> r -> holder s = Some x <-> phase s x = InConnector) ->
  (forall x, x <> r -> In x q <-> phase s x = Waiting) ->
  ~ In r q ->
  NoDup q ->
  (forall x, holder s <> Some x \/ x = r) ->
  Inv (enter r q s).
Proof.
  intros r q s Hh Hq Hrq Hnd Hnone; unfold enter, make_socket, Inv; simpl.
  split; [ | split; [ | exact Hnd ] ].
  - intros x; destruct (Nat.eq_dec x r) as [->|Hx].
    + rewrite set_phase_same; split; reflexivity.
    + rewrite set_phase_other by exact Hx; rewrite <- Hh by exact Hx.
      destruct (Hnone x) as [Hn|Hn]; [ | contradiction ].
      split; intro E; [ injection E; intros; subst; contradiction | ].
      contradiction.
  - intros x; destruct (Nat.eq_dec x r) as [->|Hx].
    + rewrite set_phase_same; split; intro E; [ contradiction | discriminate ].
    + rewrite set_phase_other by exact Hx; apply Hq, Hx.
Qed.

Lemma inv_step : forall s e, Inv s -> Inv (step s e).
Proof.
  intros s e H; pose proof H as [Hh [Hq Hnd]].
  destruct e as [r|r|k|k reason]; simpl.
  - destruct (phase s r) eqn:Er; try exact H.
    destruct (holder s) as [h|] eqn:Eh.
    + unfold Inv; simpl; split; [ | split ].
      * intros x; destruct (Nat.eq_dec x r) as [->|Hx].
        -- rewrite set_phase_same; split; intro E; [ | discriminate ].
           apply Hh in E; congruence.
        -- rewrite set_phase_other by exact Hx; apply Hh.
      * intros x; rewrite in_app_iff; simpl.
        destruct (Nat.eq_dec x r) as [->|Hx].
        -- rewrite set_phase_same; tauto.
        -- rewrite set_phase_other by exact Hx; rewrite <- Hq.
           split; [ intros [?|[?|[]]]; [ assumption | congruence ] | tauto ].
      * apply NoDup_app; [ exact Hnd | constructor; [ intros [] | constructor ] | ].
        intros x Hx [<-|[]]; apply Hq in Hx; congruence.
    + apply inv_enter.
      * intros x _; rewrite Eh; apply Hh.
      * intros x _; apply Hq.
      * rewrite Hq, Er; discriminate.
      * exact Hnd.
      * intros x; left; rewrite Eh; discriminate.
  - destruct (holder s) as [h|] eqn:Eh; [ | exact H ].
    destruct (Nat.eqb_spec h r) as [<-|Hne]; [ | exact H ].
    assert (Hin : phase s h = InConnector) by (apply Hh; reflexivity).
    destruct (queue s) as [|r' q] eqn:Eq.
    + unfold Inv; simpl; split; [ | split; [ | constructor ] ].
      * intros x; destruct (Nat.eq_dec x h) as [->|Hx].
        -- rewrite set_phase_same; split; discriminate.
        -- rewrite set_phase_other by exact Hx; split; [ discriminate | ].
           intro E; apply Hh in E; congruence.
      * intros x; destruct (Nat.eq_dec x h) as [->|Hx].
        -- rewrite set_phase_same; split; [ intros [] | discriminate ].
        -- rewrite set_phase_other by exact Hx; rewrite <- Hq; reflexivity.
    + assert (Hw : phase s r' = Waiting) by (apply Hq; left; reflexivity).
      assert (Hne : r' <> h) by congruence.
      inversion Hnd as [|? ? Hnotin Hndq]; subst.
      apply inv_enter; simpl.
      * intros x Hx; destruct (Nat.eq_dec x h) as [->|Hx'].
        -- rewrite set_phase_same; split; discriminate.
        -- rewrite set_phase_other by exact Hx'; split; [ discriminate | ].
           intro E; apply Hh in E; congruence.
      * intros x Hx; destruct (Nat.eq_dec x h) as [->|Hx'].
        -- rewrite set_phase_same; split; [ | discriminate ].
           intro Hxq; assert (Hw' : phase s h = Waiting)
             by (apply Hq; right; exact Hxq).
           congruence.
        -- rewrite set_phase_other by exact Hx'.
           rewrite <- Hq; simpl.
           split; [ tauto | intros [E|E]; [ congruence | exact E ] ].
      * exact Hnotin.
      * exact Hndq.
      * intros x; left; discriminate.
  - destruct (existsb (Nat.eqb k) (live s));
      [ apply inv_end_session, H | exact H ].
  - destruct (existsb (Nat.eqb k) (live s)); [ | exact H ].
    destruct (Server.is_transient reason);
      [ apply inv_make_socket, inv_drop_live, H
      | apply inv_end_session, inv_drop_live, H ].
Qed.
Lemma inv_run : forall evs s, Inv s -> Inv (fold_left step evs s).
Proof.
  induction evs as [|e evs IH]; intros s H; simpl; [ exact H | ].
  apply IH, inv_step, H.
Qed.

Lemma inv_init : Inv init.
Proof.
  unfold Inv, init; simpl; split; [ | split; [ | constructor ] ].
  - intros r; split; discriminate.
  - intros r; split; [ intros [] | discriminate ].
Qed.

(** C1 (counterexample): request 1 gets its pairing code and [connector]
    returns, which releases the mutex while its socket still waits for the
    link; request 2 then takes the mutex and makes a second socket. *)
Lemma single_flight_counterexample :
  live (run [Request 1; Return 1; Request 2]) = [1; 0]%nat.
Proof. reflexivity. Qed.

(** C1 (amended): the mutex serialises the [connector] calls of /pair
    requests: at any time at most one request is inside [connector], and a
    request that arrives while the mutex is held waits in the queue and
    makes no socket.  The mutex is released when [connector] returns, after
    the code was sent and the listeners were registered and before any
    lifecycle event of the socket, cleanup included.  A request that comes
    then makes a second socket while the first one is still live, and a
    reconnect after a transient disconnect makes a socket without taking
    the mutex. *)
Theorem single_flight_connector :
  (forall evs,
     let s := run evs in
     (forall r1 r2, phase s r1 = InConnector -> phase s r2 = InConnector ->
      r1 = r2) /\
     (forall r, In r (queue s) <-> phase s r = Waiting)) /\
  (forall evs r h,
     let s := run evs in
     holder s = Some h -> phase s r = Idle ->
     holder (step s (Request r)) = Some h /\ In r (queue (step s (Request r))) /\
     live (step s (Request r)) = live s /\
     next_sock (step s (Request r)) = next_sock s) /\
  (forall o c p evs s0,
     exists l1 l2,
       Server.log (snd (Server.session_flow o (Some (c :: p)) evs s0))
         = Server.log s0 ++ Server.EGuardAcquire :: l1 ++ Server.EGuardRelease :: l2 /\
       Forall ReleaseFacts.conn_eff l1 /\
       (Server.listeners_registered o = true ->
        In (Server.EListen Server.OnConnectionUpdate) l1) /\
       Forall ReleaseFacts.no_guard l2) /\
  (forall evs r r',
     let s := run evs in
     holder s = Some r -> queue s = [] -> r' <> r -> phase s r' = Idle ->
     let s2 := step (step s (Return r)) (Request r') in
     phase s2 r = Returned /\ holder s2 = Some r' /\
     live s2 = next_sock s :: live s) /\
  (forall evs k reason,
     let s := run evs in
     In k (live s) -> Server.is_transient reason = true ->
     let s' := step s (Close k reason) in
     holder s' = holder s /\ queue s' = queue s /\ phase s' = phase s /\
     live s' = next_sock s :: filter (fun x => negb (Nat.eqb x k)) (live s) /\
     session s' = Some (next_sock s)).
Proof.
  split; [ | split; [ | split; [ | split ] ] ].
  - intros evs s; subst s.
    destruct (inv_run evs init inv_init) as [Hh [Hq _]]; split.
    + intros r1 r2 H1 H2; apply Hh in H1; apply Hh in H2; congruence.
    + exact Hq.
  - intros evs r h s Hh Hr; simpl; rewrite Hr, Hh; simpl.
    rewrite in_app_iff; simpl; auto.
  - apply ReleaseFacts.session_flow_release.
  - intros evs r r' s Hh Hq Hne Hr s2; subst s2; simpl.
    rewrite Hh, Nat.eqb_refl, Hq; simpl.
    rewrite set_phase_other by exact Hne; rewrite Hr; simpl.
    split; [ | split; reflexivity ].
    rewrite set_phase_other by (intro E; apply Hne; symmetry; exact E).
    apply set_phase_same.
  - intros evs k reason s Hk Ht s'; subst s'; simpl.
    assert (E : existsb (Nat.eqb k) (live s) = true)
      by (apply existsb_exists; exists k; split; [ exact Hk | apply Nat.eqb_refl ]).
    rewrite E, Ht; simpl; repeat split.
Qed.

Lemma single_flight_connector_witness :
  In 2%nat (queue (step (run [Request 1]) (Request 2))) /\
  live (step (step (run [Request 1]) (Return 1)) (Request 2)) = [1; 0]%nat /\
  session (step (run [Request 1]) (Close 0 (Some connectionLost))) = Some 1%nat.
Proof.
  destruct single_flight_connector as [_ [HB [_ [HD HE]]]].
  split; [ | split ].
  - exact (proj1 (proj2 (HB [Request 1] 2%nat 1%nat eq_refl eq_refl))).
  - exact (proj2 (proj2 (HD [Request 1] 1%nat 2%nat eq_refl eq_refl
                           ltac:(discriminate) eq_refl))).
  - exact (proj2 (proj2 (proj2 (proj2 (HE [Request 1] 0%nat (Some connectionLost)
                                          ltac:(left; reflexivity) eq_refl))))).
Defined.

End GuardClaims.

(** ** The upload pipelines *)
Module UploadClaims.
Import Server ServerFacts.

Lemma upload_files_sid : forall u files s, sid (snd (upload_files u files s)) = sid s.
Proof.
  intros u files; induction files as [|f rest IH]; intros s; [ reflexivity | ].
  simpl; unfold bind, gets, emit; simpl.
  destruct (put_ok u (path_join (sid s) f)); simpl; [ | reflexivity ].
  destruct (sb_ok u (path_join (sid s) f)); simpl; [ rewrite IH | ]; reflexivity.
Qed.

Lemma put_paths_app : forall l1 l2, put_paths (l1 ++ l2) = put_paths l1 ++ put_paths l2.
Proof. intros; unfold put_paths; apply flat_map_app. Qed.

(** The loop of server.js stops at the first file whose upload fails. *)
Lemma upload_files_stops : forall u pre f post s,
  (forall x, In x pre -> put_ok u (path_join (sid s) x) = true /\
                         sb_ok u (path_join (sid s) x) = true) ->
  put_ok u (path_join (sid s) f) = false \/ sb_ok u (path_join (sid s) f) = false ->
  fst (upload_files u (pre ++ f :: post) s) = None /\
  put_paths (log (snd (upload_files u (pre ++ f :: post) s)))
    = put_paths (log s) ++ map (path_join (sid s)) (pre ++ [f]).
Proof.
  intros u pre; induction pre as [|x pre IH]; intros f post s Hok Hf; simpl.
  - unfold bind, gets, emit; simpl.
    destruct (put_ok u (path_join (sid s) f)) eqn:Ep; simpl.
    + destruct Hf as [Hf|Hf]; [ congruence | rewrite Hf ]; simpl.
      rewrite !put_paths_app; simpl; rewrite app_nil_r; auto.
    + rewrite put_paths_app; auto.
  - unfold bind, gets, emit at 1; simpl.
    destruct (Hok x (or_introl eq_refl)) as [E1 E2]; rewrite E1, E2; simpl.
    match goal with
    | |- context [upload_files u (pre ++ f :: post) ?s1] =>
        destruct (IH f post s1) as [IH1 IH2]
    end.
    + intros y Hy; apply Hok; right; exact Hy.
    + exact Hf.
    + split; [ exact IH1 | rewrite IH2; cbn [log sid]; rewrite !put_paths_app ].
      simpl; rewrite app_nil_r, <- app_assoc; reflexivity.
Qed.

Lemma on_open_stops : forall u s pre f post,
  MemAdapter.readDir (vfiles s) = pre ++ f :: post ->
  (forall x, In x pre -> put_ok u (path_join (sid s) x) = true /\
                         sb_ok u (path_join (sid s) x) = true) ->
  put_ok u (path_join (sid s) f) = false \/ sb_ok u (path_join (sid s) f) = false ->
  put_paths (log (snd (on_open u s)))
    = put_paths (log s) ++ map (path_join (sid s)) (pre ++ [f]).
Proof.
  intros u s pre f post Hdir Hok Hf.
  destruct (upload_files_stops u pre f post s Hok Hf) as [Hr Hp].
  unfold on_open, try_finally, try_catch, bind, gets.
  cbn [fst snd]; rewrite Hdir.
  destruct (upload_files u (pre ++ f :: post) s) as [r s1]; simpl in Hr, Hp.
  subst r; cbn; rewrite !put_paths_app, Hp; simpl.
  rewrite !app_nil_r; reflexivity.
Qed.

Lemma upload_each_files : forall o sessionId files,
  map Part001.outcome_file (Part001.upload_each o sessionId files) = files.
Proof.
  intros o sessionId files; induction files as [|f rest IH]; simpl; [ reflexivity | ].
  rewrite IH; destruct (Part001.present o f), (Part001.read_ok o f);
    [ destruct (Part001.up_ok o (path_join sessionId f)) | .. ]; reflexivity.
Qed.

Lemma upload_each_attempted : forall o sessionId files,
  map Part001.outcome_file
      (filter Part001.attempted (Part001.upload_each o sessionId files))
  = filter (Part001.present o) files.
Proof.
  intros o sessionId files; induction files as [|f rest IH]; simpl; [ reflexivity | ].
  destruct (Part001.present o f), (Part001.read_ok o f);
    [ destruct (Part001.up_ok o (path_join sessionId f)) | .. ]; simpl;
    rewrite IH; reflexivity.
Qed.

Lemma upload_each_failed : forall o sessionId files,
  map Part001.outcome_file
      (filter Part001.failed (Part001.upload_each o sessionId files))
  = filter (fun file => Part001.present o file
                        && negb (Part001.read_ok o file
                                 && Part001.up_ok o (path_join sessionId file)))
      files.
Proof.
  intros o sessionId files; induction files as [|f rest IH]; simpl; [ reflexivity | ].
  destruct (Part001.present o f), (Part001.read_ok o f);
    [ destruct (Part001.up_ok o (path_join sessionId f)) | .. ]; simpl;
    rewrite IH; reflexivity.
Qed.

Definition vf_two : MemAdapter.obj :=
  [(js "creds.json", JStr (js "{}")); (js "key-1.json", JStr (js "{}"))].

(** Supabase refuses the first file. *)
Definition u_first_fails : OpenOracle :=
  {| put_ok := fun _ => true;
     sb_ok := fun p => negb (jstr_eqb p (path_join (js "1") (js "creds.json")));
     msg_ok := true; image := false |}.

(** C4 (counterexample): in server.js, when the upload of "creds.json"
    fails, "key-1.json" is never attempted. *)
Lemma upload_independent_counterexample :
  put_paths (log (snd (on_open u_first_fails (mkSt true vf_two (js "1") []))))
  = [path_join (js "1") (js "creds.json")].
Proof. vm_compute; reflexivity. Qed.

(** C4 (amended): the upload loop of server.js stops at the first file
    whose upload fails (the error is caught and logged by the 'open'
    listener, the later files are not attempted).  [uploadSession] of
    part_001 goes through every listed file: it skips, with a log line, a
    file that no longer exists, attempts every other one, logs each failing
    one by name, and still returns the session id: no aggregate failure is
    surfaced. *)
Theorem upload_failure_policy :
  (forall u s pre f post,
     MemAdapter.readDir (vfiles s) = pre ++ f :: post ->
     (forall x, In x pre -> put_ok u (path_join (sid s) x) = true /\
                            sb_ok u (path_join (sid s) x) = true) ->
     put_ok u (path_join (sid s) f) = false \/
     sb_ok u (path_join (sid s) f) = false ->
     put_paths (log (snd (on_open u s)))
       = put_paths (log s) ++ map (path_join (sid s)) (pre ++ [f])) /\
  (forall o files sessionId,
     files <> [] ->
     fst (Part001.uploadSession o (Some files) sessionId) = Some sessionId /\
     map Part001.outcome_file (snd (Part001.uploadSession o (Some files) sessionId))
       = files /\
     map Part001.outcome_file
         (filter Part001.attempted (snd (Part001.uploadSession o (Some files) sessionId)))
       = filter (Part001.present o) files /\
     map Part001.outcome_file
         (filter Part001.failed (snd (Part001.uploadSession o (Some files) sessionId)))
       = filter (fun file => Part001.present o file
                             && negb (Part001.read_ok o file
                                      && Part001.up_ok o (path_join sessionId file)))
           files).
Proof.
  split.
  - apply on_open_stops.
  - intros o [|f rest] sessionId Hne; [ congruence | ].
    unfold Part001.uploadSession; cbn [fst snd].
    split; [ reflexivity | split; [ | split ] ];
      [ apply upload_each_files | apply upload_each_attempted
      | apply upload_each_failed ].
Qed.

Definition o_up_b_fails : Part001.UpOracle :=
  {| Part001.present := fun _ => true;
     Part001.read_ok := fun _ => true;
     Part001.up_ok := fun p => negb (jstr_eqb p (path_join (js "ab") (js "creds.json"))) |}.

Lemma upload_failure_policy_witness :
  fst (Part001.uploadSession o_up_b_fails
         (Some [js "creds.json"; js "key-1.json"]) (js "ab")) = Some (js "ab") /\
  put_paths (log (snd (on_open u_first_fails (mkSt true vf_two (js "1") []))))
    = [] ++ map (path_join (js "1")) ([] ++ [js "creds.json"]).
Proof.
  split.
  - apply (proj2 upload_failure_policy); discriminate.
  - apply (proj1 upload_failure_policy u_first_fails
             (mkSt true vf_two (js "1") []) [] (js "creds.json")
             [js "key-1.json"]).
    + reflexivity.
    + intros x [].
    + right; reflexivity.
Defined.

End UploadClaims.

(** ** Archiving under the minted session id *)
Module ArchiveClaims.
Import Archive.

Lemma path_join_inj : forall X k1 k2, path_join X k1 = path_join X k2 -> k1 = k2.
Proof.
  intros X k1 k2 H; unfold path_join in H.
  apply app_inv_head in H; apply app_inv_head in H; exact H.
Qed.

Lemma bucket_get_cons_other : forall V (b : bucket V) p p' v,
  p <> p' -> bucket_get ((p', v) :: b) p = bucket_get b p.
Proof.
  intros V b p p' v H; simpl.
  destruct (jstr_eqb p p') eqn:E; [ apply jstr_eqb_eq in E; contradiction | reflexivity ].
Qed.

Lemma bucket_get_cons_same : forall V (b : bucket V) p v,
  bucket_get ((p, v) :: b) p = Some v.
Proof. intros; simpl; rewrite jstr_eqb_refl; reflexivity. Qed.

Section Vercel.
Variable V : Type.
Variable put_ok : jstr -> bool.
Hypothesis put_always : forall p, put_ok p = true.

Lemma put_all_result : forall X (files : list (jstr * V)) b,
  fst (put_all put_ok X files b) = Some (map (fun e => path_join X (fst e)) files).
Proof.
  intros X files; induction files as [|[k v] rest IH]; intros b; [ reflexivity | ].
  simpl; unfold put; rewrite put_always.
  specialize (IH ((path_join X k, v) :: b)).
  destruct (put_all put_ok X rest ((path_join X k, v) :: b)) as [r b'].
  simpl in *; rewrite IH; reflexivity.
Qed.

Lemma put_all_other : forall X (files : list (jstr * V)) b p,
  (forall k, In k (map fst files) -> p <> path_join X k) ->
  bucket_get (snd (put_all put_ok X files b)) p = bucket_get b p.
Proof.
  intros X files; induction files as [|[k v] rest IH]; intros b p Hp; [ reflexivity | ].
  simpl; unfold put; rewrite put_always.
  specialize (IH ((path_join X k, v) :: b) p).
  destruct (put_all put_ok X rest ((path_join X k, v) :: b)) as [r b'].
  simpl in *; rewrite IH by (intros k' Hk'; apply Hp; right; exact Hk').
  apply bucket_get_cons_other, Hp; left; reflexivity.
Qed.

Lemma put_all_stored : forall X (files : list (jstr * V)) b k v,
  NoDup (map fst files) -> In (k, v) files ->
  bucket_get (snd (put_all put_ok X files b)) (path_join X k) = Some v.
Proof.
  intros X files; induction files as [|[k0 v0] rest IH]; intros b k v Hnd Hin;
    [ destruct Hin | ].
  inversion Hnd as [|? ? Hk0 Hndr]; subst.
  simpl; unfold put; rewrite put_always.
  pose proof (put_all_other X rest ((path_join X k0, v0) :: b)) as Hother.
  pose proof (IH ((path_join X k0, v0) :: b)) as IH'.
  destruct (put_all put_ok X rest ((path_join X k0, v0) :: b)) as [r b'].
  simpl in *; destruct Hin as [E|Hin].
  - injection E; intros; subst.
    rewrite Hother; [ apply bucket_get_cons_same | ].
    intros k' Hk' E'; apply path_join_inj in E'; subst; contradiction.
  - apply IH'; assumption.
Qed.

End Vercel.

Section Supabase.
Variable V : Type.
Variable up_ok : jstr -> bool.
Hypothesis up_always : forall p, up_ok p = true.

Lemma upload_files_fresh : forall X (files : list (jstr * V)) b,
  NoDup (map fst files) ->
  (forall k, In k (map fst files) -> bucket_get b (path_join X k) = None) ->
  fst (upload_files up_ok X files b) = true /\
  (forall k v, In (k, v) files ->
     bucket_get (snd (upload_files up_ok X files b)) (path_join X k) = Some v).
Proof.
  intros X files; induction files as [|[k0 v0] rest IH]; intros b Hnd Hfresh.
  - split; [ reflexivity | intros k v [] ].
  - inversion Hnd as [|? ? Hk0 Hndr]; subst.
    simpl; unfold sb_upload.
    rewrite (Hfresh k0 (or_introl eq_refl)), up_always.
    assert (Hfresh' : forall k, In k (map fst rest) ->
              bucket_get ((path_join X k0, v0) :: b) (path_join X k) = None).
    { intros k Hk; rewrite bucket_get_cons_other.
      - apply Hfresh; right; exact Hk.
      - intro E; apply path_join_inj in E; subst; contradiction. }
    destruct (IH _ Hndr Hfresh') as [IH1 IH2].
    split; [ exact IH1 | intros k v [E|Hin] ].
    + injection E; intros; subst.
      (* the later uploads write other paths *)
      clear IH1 IH2 Hfresh'.
      assert (Hkeep : forall b0, bucket_get b0 (path_join X k) = Some v ->
                bucket_get (snd (upload_files up_ok X rest b0)) (path_join X k)
                = Some v).
      { clear IH Hfresh Hnd; induction rest as [|[k1 v1] rest' IHr]; intros b0 Hb0;
          [ exact Hb0 | ].
        inversion Hndr as [|? ? Hk1 Hndr']; subst; simpl.
        destruct (sb_upload V up_ok (path_join X k1) v1 b0) as [b1|] eqn:Eb;
          [ | exact Hb0 ].
        apply IHr.
        - intro Hin'; apply Hk0; right; exact Hin'.
        - exact Hndr'.
        - unfold sb_upload in Eb; destruct (bucket_get b0 (path_join X k1));
            [ discriminate | ].
          rewrite up_always in Eb; injection Eb; intros <-.
          rewrite bucket_get_cons_other; [ exact Hb0 | ].
          intro E'; apply path_join_inj in E'; subst; apply Hk0; left; reflexivity. }
      apply Hkeep, bucket_get_cons_same.
    + apply IH2, Hin.
Qed.

End Supabase.

(** C5: archiving the adapter's files under a minted session id [X] (the
    [Date.now().toString()] of [uploadSessionToBlob], the random hex id of
    [SessionManager.uploadSession]) stores each file's content under
    [X/file] and returns [X], when every upload succeeds (for Supabase, which
    does not overwrite, the id must not be in use yet). *)
Theorem archive_under_session_id :
  forall V (put_ok up_ok : jstr -> bool) X (files : list (jstr * V)) (b : bucket V),
  NoDup (map fst files) ->
  (forall p, put_ok p = true) -> (forall p, up_ok p = true) ->
  (forall k, In k (map fst files) -> bucket_get b (path_join X k) = None) ->
  (option_map fst (fst (uploadSessionToBlob put_ok X files b)) = Some X /\
   forall k v, In (k, v) files ->
     bucket_get (snd (uploadSessionToBlob put_ok X files b)) (path_join X k)
     = Some v) /\
  (fst (uploadSession up_ok files X b) = Some X /\
   forall k v, In (k, v) files ->
     bucket_get (snd (uploadSession up_ok files X b)) (path_join X k) = Some v).
Proof.
  intros V put_ok up_ok X files b Hnd Hput Hup Hfresh; split.
  - unfold uploadSessionToBlob.
    pose proof (put_all_result V put_ok Hput X files b) as R.
    pose proof (put_all_stored V put_ok Hput X files b) as S.
    destruct (put_all put_ok X files b) as [r b']; simpl in *; subst r.
    split; [ reflexivity | intros k v Hin; apply S; assumption ].
  - unfold uploadSession.
    destruct (upload_files_fresh V up_ok Hup X files b Hnd Hfresh) as [R S].
    destruct (upload_files up_ok X files b) as [ok b']; simpl in *; subst ok.
    split; [ reflexivity | exact S ].
Qed.

Lemma archive_under_session_id_witness :
  let files := [(js "creds.json", 1%nat); (js "key-1.json", 2%nat)] in
  let X := js "1700000000000" in
  bucket_get (snd (uploadSession (fun _ => true) files X [])) (path_join X (js "creds.json"))
    = Some 1%nat /\
  bucket_get (snd (uploadSession (fun _ => true) files X [])) (path_join X (js "key-1.json"))
    = Some 2%nat /\
  fst (uploadSession (fun _ => true) files X []) = Some X.
Proof.
  intros files X.
  destruct (archive_under_session_id nat (fun _ => true) (fun _ => true) X files [])
    as [_ [H1 H2]].
  - repeat constructor; simpl; intuition discriminate.
  - reflexivity.
  - reflexivity.
  - intros; reflexivity.
  - split; [ apply H2; left; reflexivity | split; [ apply H2; right; left; reflexivity | exact H1 ] ].
Defined.

End ArchiveClaims.

(** ** Disconnects *)
Module DisconnectClaims.
Import Server ServerFacts Disconnect.

Lemma connector_reconnect_no_reconnect : forall o,
  Adds is_reconnect 0 (connector o None false).
Proof. intros o; unfold connector; repeat (adds0_step; try reflexivity). Qed.

(** C6 (counterexample): the class-based variant (part_000) only cleans up
    after a lost connection; it does not reconnect. *)
Lemma disconnect_counterexample :
  count_reconnect (close_part000 true (Some connectionLost)) = 0%nat.
Proof. reflexivity. Qed.

(** C6 (amended): a logout never reconnects: server.js's [handleDisconnect]
    only ends the socket (its in-memory files are left as they are), the
    other two variants end it and remove the session directory.  A lost
    connection reconnects exactly once in server.js's [handleDisconnect]
    and in part_001, while part_000 ends the socket and removes the session
    directory without reconnecting. *)
Theorem disconnect_policy : forall o s session_set dir_exists,
  log (snd (handleDisconnect o (Some loggedOut) s)) = log s ++ [ESessionEnd] /\
  count_eff is_reconnect (log (snd (handleDisconnect o (Some connectionLost) s)))
    = S (count_eff is_reconnect (log s)) /\
  close_part001 session_set dir_exists (Some loggedOut)
    = (if session_set then [AEndSession] else [])
      ++ (if dir_exists then [ARemoveSessionDir] else []) /\
  count_reconnect (close_part001 session_set dir_exists (Some connectionLost)) = 1%nat /\
  close_part000 session_set (Some loggedOut)
    = (if session_set then [AEndSession] else []) ++ [ARemoveSessionDir] /\
  close_part000 session_set (Some connectionLost)
    = (if session_set then [AEndSession] else []) ++ [ARemoveSessionDir].
Proof.
  intros o s session_set dir_exists.
  assert (H : Adds is_reconnect (1 + 0)
                (emit EReconnect ;; detach (connector o None false))).
  { apply adds_bind_safe;
      [ apply adds_emit1; reflexivity | intros s'; discriminate | intros _ ].
    apply adds_detach, connector_reconnect_no_reconnect. }
  repeat split; try reflexivity.
  change (handleDisconnect o (Some connectionLost) s)
    with ((emit EReconnect ;; detach (connector o None false)) s).
  rewrite H; lia.
Qed.

End DisconnectClaims.

(** ** The in-memory adapter *)
Module AdapterClaims.
Import MemAdapter.

Lemma obj_get_set_same : forall o k v, obj_get (obj_set o k v) k = Some v.
Proof.
  induction o as [|[k' v'] o IH]; intros k v; simpl.
  - rewrite jstr_eqb_refl; reflexivity.
  - destruct (jstr_eqb k k') eqn:E; simpl; rewrite ?E; [ reflexivity | apply IH ].
Qed.

Lemma obj_get_delete_same : forall o k, obj_get (obj_delete o k) k = None.
Proof.
  induction o as [|[k' v'] o IH]; intros k; simpl; [ reflexivity | ].
  destruct (jstr_eqb k k') eqn:E; simpl; rewrite ?E; apply IH.
Qed.

(** Reading back what was written gives it back exactly when it is
    truthy. *)
Lemma readFile_writeFile : forall o k v,
  readFile (writeFile o k v) k = if truthy v then v else JNull.
Proof. intros; unfold readFile, writeFile; rewrite obj_get_set_same; reflexivity. Qed.

(** Removing a key, present or not, and reading it gives "not found". *)
Lemma readFile_removeFile : forall o k, readFile (removeFile o k) k = JNull.
Proof. intros; unfold readFile, removeFile; rewrite obj_get_delete_same; reflexivity. Qed.

(** C7 (code bug): [readFile] answers [virtualFiles[file] || null], so an
    empty string written under "creds.json" reads back as [null], the
    "not found" answer, instead of "". *)
Theorem readFile_empty_string_lost :
  readFile (writeFile [] (js "creds.json") (JStr [])) (js "creds.json") = JNull.
Proof. reflexivity. Qed.

End AdapterClaims.

(** ** More of the in-memory adapters *)
Module AdapterFacts.
Import MemAdapter.

Lemma obj_get_set_other : forall o k k' v,
  k' <> k -> obj_get (obj_set o k v) k' = obj_get o k'.
Proof.
  induction o as [|[k0 v0] o IH]; intros k k' v Hne; simpl.
  - destruct (jstr_eqb k' k) eqn:E; [ apply jstr_eqb_eq in E; congruence | reflexivity ].
  - destruct (jstr_eqb k k0) eqn:E; simpl.
    + apply jstr_eqb_eq in E; subst k0.
      destruct (jstr_eqb k' k) eqn:E'; [ apply jstr_eqb_eq in E'; congruence | reflexivity ].
    + destruct (jstr_eqb k' k0); [ reflexivity | apply IH, Hne ].
Qed.

Lemma obj_get_delete_other : forall o k k',
  k' <> k -> obj_get (obj_delete o k) k' = obj_get o k'.
Proof.
  induction o as [|[k0 v0] o IH]; intros k k' Hne; simpl; [ reflexivity | ].
  destruct (jstr_eqb k k0) eqn:E.
  - apply jstr_eqb_eq in E; subst k0.
    destruct (jstr_eqb k' k) eqn:E'; [ apply jstr_eqb_eq in E'; congruence | ].
    apply IH, Hne.
  - simpl; destruct (jstr_eqb k' k0); [ reflexivity | apply IH, Hne ].
Qed.

Lemma keys_obj_set : forall o k v,
  map fst (obj_set o k v)
  = if existsb (jstr_eqb k) (map fst o) then map fst o else map fst o ++ [k].
Proof.
  induction o as [|[k0 v0] o IH]; intros k v; simpl; [ reflexivity | ].
  destruct (jstr_eqb k k0) eqn:E; simpl; [ reflexivity | ].
  rewrite IH; destruct (existsb (jstr_eqb k) (map fst o)); reflexivity.
Qed.

Lemma keys_obj_delete : forall o k,
  map fst (obj_delete o k) = filter (fun k' => negb (jstr_eqb k k')) (map fst o).
Proof.
  induction o as [|[k0 v0] o IH]; intros k; simpl; [ reflexivity | ].
  destruct (jstr_eqb k k0); simpl; rewrite IH; reflexivity.
Qed.

Lemma keys_fold_delete : forall ks o k',
  In k' (map fst (fold_left obj_delete ks o)) ->
  In k' (map fst o) /\ ~ In k' ks.
Proof.
  induction ks as [|k ks IH]; intros o k' Hin; simpl in *; [ split; auto | ].
  destruct (IH _ _ Hin) as [H1 H2].
  rewrite keys_obj_delete, filter_In in H1; destruct H1 as [H1 H3].
  split; [ exact H1 | intros [E|E]; [ subst k | contradiction ] ].
  rewrite jstr_eqb_refl in H3; discriminate.
Qed.

(** X1: [clear()] deletes every property: the store is empty afterwards,
    whatever it held. *)
Theorem clear_empties : forall o, clear o = [].
Proof.
  intros o; unfold clear.
  destruct (fold_left obj_delete (map fst o) o) as [|[k v] rest] eqn:E;
    [ reflexivity | exfalso ].
  assert (Hin : In k (map fst (fold_left obj_delete (map fst o) o)))
    by (rewrite E; left; reflexivity).
  destruct (keys_fold_delete _ _ _ Hin) as [H1 H2]; contradiction.
Qed.

(** X2: for keys that are plain own properties ([plain_key]), writing or
    removing one file leaves what [readFile] and [fileExists] answer for
    every other file unchanged. *)
Theorem adapter_frame : forall o k k' v,
  plain_key k = true -> plain_key k' = true ->
  k' <> k ->
  readFile (writeFile o k v) k' = readFile o k' /\
  fileExists (writeFile o k v) k' = fileExists o k' /\
  readFile (removeFile o k) k' = readFile o k' /\
  fileExists (removeFile o k) k' = fileExists o k'.
Proof.
  intros o k k' v _ _ Hne; unfold readFile, fileExists, writeFile, removeFile.
  rewrite obj_get_set_other, obj_get_delete_other by exact Hne.
  repeat split.
Qed.

Lemma adapter_frame_witness :
  readFile (writeFile [(js "key-1.json", JStr (js "k"))] (js "creds.json") JNull)
           (js "key-1.json") = JStr (js "k").
Proof.
  destruct (adapter_frame [(js "key-1.json", JStr (js "k"))] (js "creds.json")
              (js "key-1.json") JNull) as [H _];
    [ vm_compute; reflexivity | vm_compute; reflexivity | discriminate | ].
  rewrite H; reflexivity.
Defined.

(** X3: in a store whose keys are all plain ([plain_key]), [readDir] keeps
    the order in which files were first written: a write of a plain key to
    a new file adds it last, a write to an existing one keeps the list; a
    removal drops the file and keeps the order of the others; so a store
    built by writes and removals never lists a file twice. *)
Theorem readDir_order : forall o k v,
  forallb plain_key (readDir o) = true -> plain_key k = true ->
  readDir (writeFile o k v)
    = (if existsb (jstr_eqb k) (readDir o) then readDir o else readDir o ++ [k]) /\
  forallb plain_key (readDir (writeFile o k v)) = true /\
  readDir (removeFile o k) = filter (fun k' => negb (jstr_eqb k k')) (readDir o) /\
  forallb plain_key (readDir (removeFile o k)) = true /\
  (NoDup (readDir o) ->
   NoDup (readDir (writeFile o k v)) /\ NoDup (readDir (removeFile o k))).
Proof.
  intros o k v Ho Hk; unfold readDir, writeFile, removeFile in *.
  rewrite keys_obj_set, keys_obj_delete.
  split; [ reflexivity | split; [ | split; [ reflexivity | split ] ] ].
  - destruct (existsb (jstr_eqb k) (map fst o)); [ exact Ho | ].
    rewrite forallb_app, Ho; simpl; rewrite Hk; reflexivity.
  - apply forallb_forall; intros x Hx; apply filter_In in Hx.
    apply (proj1 (forallb_forall _ _) Ho), Hx.
  - intros Hnd; split; [ | apply NoDup_filter, Hnd ].
    destruct (existsb (jstr_eqb k) (map fst o)) eqn:E; [ exact Hnd | ].
    apply NoDup_app; [ exact Hnd | constructor; [ intros [] | constructor ] | ].
    intros x Hx [Hy|[]]; subst x.
    assert (existsb (jstr_eqb k) (map fst o) = true)
      by (apply existsb_exists; exists k; split; [ exact Hx | apply jstr_eqb_refl ]).
    congruence.
Qed.

Lemma readDir_order_witness :
  readDir (writeFile [(js "creds.json", JNull)] (js "key-1.json") JNull)
    = [js "creds.json"; js "key-1.json"].
Proof.
  destruct (readDir_order [(js "creds.json", JNull)] (js "key-1.json") JNull)
    as [H _]; [ vm_compute; reflexivity | vm_compute; reflexivity | ].
  rewrite H; vm_compute; reflexivity.
Defined.

(** X4: for a plain key ([plain_key]), after [writeFile(file, data)],
    [fileExists(file)] holds exactly when [data] is not [undefined]; after
    [removeFile(file)] it does not hold, also when the file was absent. *)
Theorem fileExists_write_remove : forall o k v,
  plain_key k = true ->
  fileExists (writeFile o k v) k = match v with JUndefined => false | _ => true end /\
  fileExists (removeFile o k) k = false.
Proof.
  intros o k v _; unfold fileExists, writeFile, removeFile.
  rewrite AdapterClaims.obj_get_set_same, AdapterClaims.obj_get_delete_same;
    split; [ destruct v | ]; reflexivity.
Qed.

Lemma fileExists_write_remove_witness :
  fileExists (removeFile [(js "creds.json", JStr (js "{}"))] (js "creds.json"))
             (js "creds.json") = false.
Proof.
  destruct (fileExists_write_remove [(js "creds.json", JStr (js "{}"))]
              (js "creds.json") JNull) as [_ H]; [ vm_compute; reflexivity | ].
  exact H.
Defined.

End AdapterFacts.

(** ** The adapter keyed by [path.basename] *)
Module BasenameFacts.
Import BasenameAdapter.

Lemma basename_rev_seen : forall x rest,
  ~ In 47 x -> basename_rev (x ++ 47 :: rest) true = x.
Proof.
  induction x as [|c x IH]; intros rest Hx; simpl; [ reflexivity | ].
  destruct (c =? 47) eqn:E.
  - apply Z.eqb_eq in E; subst c; exfalso; apply Hx; left; reflexivity.
  - rewrite IH; [ reflexivity | intro H; apply Hx; right; exact H ].
Qed.

Lemma basename_path_join : forall d f,
  f <> [] -> ~ In 47 f -> basename (path_join d f) = f.
Proof.
  intros d f Hf Hs; unfold basename, path_join.
  change (js "/") with [47].
  rewrite rev_app_distr; simpl rev at 2.
  destruct (rev f) as [|c x] eqn:E.
  - apply (f_equal (@rev Z)) in E; rewrite rev_involutive in E; simpl in E; congruence.
  - assert (Hx : ~ In 47 (c :: x)) by (rewrite <- E; rewrite <- in_rev; exact Hs).
    rewrite <- app_assoc; simpl.
    destruct (c =? 47) eqn:Ec.
    + apply Z.eqb_eq in Ec; subst c; exfalso; apply Hx; left; reflexivity.
    + rewrite basename_rev_seen by (intro H; apply Hx; right; exact H).
      rewrite <- E, rev_involutive; reflexivity.
Qed.

(** X5: the adapter of the second server.js variant stores a file under
    its base name only: for a plain base name [f] ([plain_key]), a file
    written under [d1/f] is what [readFile] gives for [d2/f], whatever the
    directories, and removing [d2/f] removes it. *)
Theorem basename_alias : forall o d1 d2 f v,
  f <> [] -> ~ In 47 f -> MemAdapter.plain_key f = true ->
  readFile (writeFile o (path_join d1 f) v) (path_join d2 f)
    = (if truthy v then v else JNull) /\
  readFile (removeFile (writeFile o (path_join d1 f) v) (path_join d2 f))
           (path_join d1 f) = JNull.
Proof.
  intros o d1 d2 f v Hf Hs _; unfold readFile, writeFile, removeFile.
  rewrite !basename_path_join by assumption.
  split; [ apply AdapterClaims.readFile_writeFile | apply AdapterClaims.readFile_removeFile ].
Qed.

Lemma basename_alias_witness :
  readFile (writeFile [] (js "./temp_session/creds.json") (JStr (js "{}")))
           (js "/tmp/other/creds.json") = JStr (js "{}").
Proof.
  destruct (basename_alias [] (js "./temp_session") (js "/tmp/other")
              (js "creds.json") (JStr (js "{}"))) as [H _].
  - discriminate.
  - vm_compute; intuition discriminate.
  - vm_compute; reflexivity.
  - exact H.
Defined.

End BasenameFacts.

(** ** More of the archives *)
Module ArchiveFacts.
Import Archive.

Section Blob.
Variable V : Type.

Lemma put_all_fail : forall put_ok now pre f (c : V) post b,
  (forall k, In k (map fst pre) -> put_ok (path_join now k) = true) ->
  put_ok (path_join now f) = false ->
  put_all put_ok now (pre ++ (f, c) :: post) b
  = (None, rev (map (fun e => (path_join now (fst e), snd e)) pre) ++ b).
Proof.
  intros put_ok now pre; induction pre as [|[k v] pre IH]; intros f c post b Hpre Hf.
  - simpl; unfold put; rewrite Hf; reflexivity.
  - simpl; unfold put; rewrite (Hpre k (or_introl eq_refl)).
    rewrite IH; [ | intros k' Hk'; apply Hpre; right; exact Hk' | exact Hf ].
    simpl; rewrite <- app_assoc; reflexivity.
Qed.

Lemma sb_upload_keeps : forall up_ok p (c : V) b b',
  sb_upload V up_ok p c b = Some b' ->
  forall q w, bucket_get b q = Some w -> bucket_get b' q = Some w.
Proof.
  intros up_ok p c b b' H q w Hq; unfold sb_upload in H.
  destruct (bucket_get b p) eqn:Ep; [ discriminate | ].
  destruct (up_ok p); [ | discriminate ]; injection H as <-; simpl.
  destruct (jstr_eqb q p) eqn:E; [ | exact Hq ].
  apply jstr_eqb_eq in E; subst; congruence.
Qed.

Lemma upload_files_keeps : forall up_ok X (files : list (jstr * V)) b q w,
  bucket_get b q = Some w -> bucket_get (snd (upload_files up_ok X files b)) q = Some w.
Proof.
  intros up_ok X files; induction files as [|[k v] rest IH]; intros b q w Hq;
    [ exact Hq | ].
  simpl; destruct (sb_upload V up_ok (path_join X k) v b) as [b'|] eqn:E;
    [ | exact Hq ].
  apply IH; eapply sb_upload_keeps; eassumption.
Qed.

Lemma upload_files_taken : forall up_ok X (files : list (jstr * V)) b k,
  In k (map fst files) -> bucket_get b (path_join X k) <> None ->
  fst (upload_files up_ok X files b) = false.
Proof.
  intros up_ok X files; induction files as [|[k0 v0] rest IH]; intros b k Hk Hb;
    [ destruct Hk | ].
  simpl; destruct (sb_upload V up_ok (path_join X k0) v0 b) as [b'|] eqn:E;
    [ | reflexivity ].
  destruct Hk as [Hk|Hk]; simpl in Hk.
  - subst k0; unfold sb_upload in E.
    destruct (bucket_get b (path_join X k)); [ discriminate | congruence ].
  - apply (IH b' k Hk).
    destruct (bucket_get b (path_join X k)) as [w|] eqn:Ew; [ | congruence ].
    rewrite (sb_upload_keeps _ _ _ _ _ E _ _ Ew); discriminate.
Qed.

End Blob.

(** X6: [uploadSessionToBlob] puts the entries in order and throws at the
    first rejected [put]: the entries after it are not attempted and the
    blobs already stored stay (nothing is rolled back). *)
Theorem uploadSessionToBlob_partial : forall V put_ok now pre f (c : V) post b,
  (forall k, In k (map fst pre) -> put_ok (path_join now k) = true) ->
  put_ok (path_join now f) = false ->
  uploadSessionToBlob put_ok now (pre ++ (f, c) :: post) b
  = (None, rev (map (fun e => (path_join now (fst e), snd e)) pre) ++ b).
Proof.
  intros V put_ok now pre f c post b Hpre Hf; unfold uploadSessionToBlob.
  rewrite (put_all_fail V put_ok now pre f c post b Hpre Hf); reflexivity.
Qed.

Lemma uploadSessionToBlob_partial_witness :
  let ok := fun p => negb (jstr_eqb p (path_join (js "1") (js "key-1.json"))) in
  uploadSessionToBlob ok (js "1")
    [(js "creds.json", 1%nat); (js "key-1.json", 2%nat); (js "key-2.json", 3%nat)] []
  = (None, [(path_join (js "1") (js "creds.json"), 1%nat)]).
Proof.
  intros ok.
  apply (uploadSessionToBlob_partial nat ok (js "1") [(js "creds.json", 1%nat)]
           (js "key-1.json") 2%nat [(js "key-2.json", 3%nat)] []).
  - intros k [<-|[]]; reflexivity.
  - reflexivity.
Defined.

(** X7: [SessionManager.uploadSession] never overwrites an object of the
    bucket, whether it succeeds or throws; when one of the files' paths
    [sessionId/file] is taken already it throws. *)
Theorem uploadSession_no_overwrite : forall V up_ok (files : list (jstr * V)) X b,
  (forall q w, bucket_get b q = Some w ->
     bucket_get (snd (uploadSession up_ok files X b)) q = Some w) /\
  ((exists k, In k (map fst files) /\ bucket_get b (path_join X k) <> None) ->
   fst (uploadSession up_ok files X b) = None).
Proof.
  intros V up_ok files X b; unfold uploadSession; split.
  - intros q w Hq.
    pose proof (upload_files_keeps V up_ok X files b q w Hq) as H.
    destruct (upload_files up_ok X files b); exact H.
  - intros [k [Hk Hb]].
    pose proof (upload_files_taken V up_ok X files b k Hk Hb) as H.
    destruct (upload_files up_ok X files b) as [ok b']; simpl in H; subst ok; reflexivity.
Qed.

Lemma uploadSession_no_overwrite_witness :
  fst (uploadSession (fun _ => true) [(js "creds.json", 2%nat)] (js "ab")
         [(path_join (js "ab") (js "creds.json"), 1%nat)]) = None.
Proof.
  destruct (uploadSession_no_overwrite nat (fun _ => true) [(js "creds.json", 2%nat)]
              (js "ab") [(path_join (js "ab") (js "creds.json"), 1%nat)]) as [_ H].
  apply H; exists (js "creds.json"); split; [ left; reflexivity | ].
  vm_compute; discriminate.
Defined.

End ArchiveFacts.

(** ** More of server.js *)
Module ServerExtras.
Import PairCode Server ServerFacts.

(** X8: the 'open' branch never rejects: whatever the uploads and messages
    do, it ends by clearing the in-memory files, which are then empty, and
    ending the session. *)
Theorem on_open_always_cleans : forall u s,
  fst (on_open u s) = Some tt /\
  vfiles (snd (on_open u s)) = [] /\
  exists l, log (snd (on_open u s)) = l ++ [EAdapterClear; ESessionEnd].
Proof.
  intros u s; unfold on_open, try_finally.
  destruct (try_catch _ _ s) as [r s1] eqn:E.
  assert (Hr : r = Some tt).
  { unfold try_catch in E.
    destruct (bind _ _ s) as [[[]|] s'] in E; injection E as <- _; reflexivity. }
  subst r; cbn.
  split; [ reflexivity | split ].
  - apply AdapterFacts.clear_empties.
  - exists (log s1); rewrite <- app_assoc; reflexivity.
Qed.

Lemma upload_files_ok : forall u files s,
  (forall f, In f files -> put_ok u (path_join (sid s) f) = true /\
                           sb_ok u (path_join (sid s) f) = true) ->
  upload_files u files s
  = (Some tt,
     mkSt (headersSent s) (vfiles s) (sid s)
       (log s ++ flat_map (fun f =>
          [EPut (path_join (sid s) f) (MemAdapter.readFile (vfiles s) f);
           EUpload (path_join (sid s) f) (MemAdapter.readFile (vfiles s) f)]) files)).
Proof.
  intros u files; induction files as [|f rest IH]; intros s Hok.
  - simpl; rewrite app_nil_r; destruct s; reflexivity.
  - destruct (Hok f (or_introl eq_refl)) as [H1 H2].
    simpl; unfold bind, gets, emit; simpl; rewrite H1, H2; simpl.
    rewrite IH by (intros f' Hf'; apply Hok; right; exact Hf').
    simpl; rewrite <- !app_assoc; reflexivity.
Qed.

(** X9: when every upload and message succeeds, the 'open' branch puts
    and uploads every file [readDir] lists, in that order and each to both
    stores under [sessionId/file], sends the session id (and the image when
    [config.IMAGE] is set), then clears the files and ends the session. *)
Theorem on_open_success : forall u s,
  (forall f, In f (MemAdapter.readDir (vfiles s)) ->
     put_ok u (path_join (sid s) f) = true /\ sb_ok u (path_join (sid s) f) = true) ->
  msg_ok u = true ->
  log (snd (on_open u s))
  = log s
    ++ flat_map (fun f =>
         [EPut (path_join (sid s) f) (MemAdapter.readFile (vfiles s) f);
          EUpload (path_join (sid s) f) (MemAdapter.readFile (vfiles s) f)])
         (MemAdapter.readDir (vfiles s))
    ++ EMessage :: (if image u then [EMessage] else [])
    ++ [EAdapterClear; ESessionEnd].
Proof.
  intros u s Hok Hm; unfold on_open, try_finally, try_catch.
  unfold bind at 2; unfold gets at 1.
  unfold bind at 1; rewrite (upload_files_ok u _ s Hok); cbn.
  unfold send_message; rewrite Hm; destruct (image u); cbn; rewrite ?Hm; cbn;
    rewrite <- !app_assoc; reflexivity.
Qed.

Lemma on_open_success_witness :
  let u := {| put_ok := fun _ => true; sb_ok := fun _ => true; msg_ok := true;
              image := false |} in
  let s := mkSt true [(js "creds.json", JStr (js "{}"))] (js "1") [] in
  log (snd (on_open u s))
  = [EPut (path_join (js "1") (js "creds.json")) (JStr (js "{}"));
     EUpload (path_join (js "1") (js "creds.json")) (JStr (js "{}"));
     EMessage; EAdapterClear; ESessionEnd].
Proof.
  intros u s.
  rewrite (on_open_success u s); [ reflexivity | | reflexivity ].
  intros f _; split; reflexivity.
Defined.

(** X10: the answer of /pair: 400 without a (non-empty) number; 500 when
    [connector] fails before a code is sent (its authentication state or
    socket fails, or [requestPairingCode] rejects); the formatted code when
    a code is obtained; none when the credentials are registered.  The
    mutex is taken and released once exactly when a number was given. *)
Theorem pair_responses : forall o number sessionId,
  let l := log (snd (pair_handler o number (init sessionId))) in
  filter is_response l
  = match number with
    | None | Some [] => [EResponse 400 None]
    | Some _ =>
        if auth_ok o && sock_ok o then
          if registered o then []
          else match pair_code o with
               | Some code => [EResponse 200 (formatCode code)]
               | None => [EResponse 500 None]
               end
        else [EResponse 500 None]
    end /\
  count_eff is_acquire l = count_eff is_release l /\
  count_eff is_acquire l
  = match number with None | Some [] => 0%nat | Some _ => 1%nat end.
Proof.
  intros o number sessionId l; subst l.
  destruct number as [[|d ds]|]; [ vm_compute; auto | | vm_compute; auto ].
  destruct o as [[] [] [] [c|]]; vm_compute; auto.
Qed.

(** X11: the [connector()] call of a reconnect makes a new socket and,
    when the loaded credentials are not registered, throws at
    [phoneNumber.replace] (the argument is undefined): no pairing code is
    asked for and the new socket gets no listener, so none of its events is
    handled; only registered credentials get both listeners back. *)
Theorem reconnect_listeners : forall o r s,
  is_transient r = true ->
  log (snd (handleDisconnect o r s))
  = log s ++ EReconnect ::
      (if auth_ok o && sock_ok o then
         ESocket :: (if registered o then
                       [EListen OnCredsUpdate; EListen OnConnectionUpdate]
                     else [])
       else []) /\
  headersSent (snd (handleDisconnect o r s)) = headersSent s.
Proof.
  intros o r s Hr; unfold handleDisconnect; rewrite Hr.
  destruct o as [[] [] [] code]; destruct s; cbn;
    rewrite <- ?app_assoc; split; reflexivity.
Qed.

Lemma reconnect_listeners_witness :
  let o := {| auth_ok := true; sock_ok := true; registered := false;
              pair_code := None |} in
  log (snd (handleDisconnect o (Some connectionLost) (init (js "1"))))
  = [EReconnect; ESocket].
Proof.
  intros o.
  destruct (reconnect_listeners o (Some connectionLost) (init (js "1"))) as [H _];
    [ reflexivity | rewrite H; reflexivity ].
Defined.

End ServerExtras.

(** ** part_002's 'open' branch *)
Module Part002Facts.
Import Server ServerFacts Part002.

(** Computations that leave [virtualFiles] as they are. *)
Definition VPres {A} (m : M A) : Prop :=
  forall s, vfiles (snd (m s)) = vfiles s.

Lemma vpres_bind : forall A B (m : M A) (k : A -> M B),
  VPres m -> (forall a, VPres (k a)) -> VPres (bind m k).
Proof.
  intros A B m k Hm Hk s; unfold bind.
  specialize (Hm s); destruct (m s) as [[a|] s']; simpl in *;
    [ rewrite Hk | ]; exact Hm.
Qed.

Lemma vpres_ret : forall A (a : A), VPres (ret a).
Proof. intros A a s; reflexivity. Qed.

Lemma vpres_throw : forall A, VPres (@throw A).
Proof. intros A s; reflexivity. Qed.

Lemma vpres_gets : forall A (f : St -> A), VPres (gets f).
Proof. intros A f s; reflexivity. Qed.

Lemma vpres_emit : forall e, VPres (emit e).
Proof. intros e s; reflexivity. Qed.

Lemma vpres_upload_entries : forall u es, VPres (upload_entries u es).
Proof.
  intros u es; induction es as [|[f c] rest IH]; simpl; [ apply vpres_ret | ].
  repeat (apply vpres_bind; [ | intro ]);
    solve [ apply vpres_gets | apply vpres_emit | exact IH
          | match goal with |- VPres (if ?b then _ else _) => destruct b end;
            first [ apply vpres_ret | apply vpres_throw ] ].
Qed.

Lemma vpres_send_message : forall u, VPres (send_message u).
Proof.
  intros u; unfold send_message; apply vpres_bind; [ apply vpres_emit | intros _ ].
  destruct (msg_ok u); [ apply vpres_ret | apply vpres_throw ].
Qed.

Lemma saveKeys_ok : forall keys s,
  exists o, saveKeys keys s = (Some tt, mkSt (headersSent s) o (sid s) (log s)).
Proof.
  induction keys as [|[id key] rest IH]; intros s; simpl.
  - exists (vfiles s); destruct s; reflexivity.
  - unfold bind, gets, set_vfiles; simpl.
    destruct (IH (mkSt (headersSent s) (MemAdapter.obj_set (vfiles s) (id ++ js ".json") key)
                   (sid s) (log s))) as [o Ho].
    exists o; exact Ho.
Qed.

Definition ends_or_clears (e : Effect) : bool :=
  match e with ESessionEnd | EAdapterClear => true | _ => false end.

Lemma saveKeys_adds : forall keys, Adds ends_or_clears 0 (saveKeys keys).
Proof.
  induction keys as [|[id key] rest IH]; simpl; [ auto with adds | ].
  repeat adds0_step; exact IH.
Qed.

Lemma upload_entries_adds : forall u es, Adds ends_or_clears 0 (upload_entries u es).
Proof.
  intros u es; induction es as [|[f c] rest IH]; simpl; [ auto with adds | ].
  repeat (adds0_step; try reflexivity); exact IH.
Qed.

(** X12: part_002's 'open' branch always rejects: the [finally] block
    throws at [virtualFiles = {}] (a [const] binding), so [session.end()]
    is never called by it and the in-memory files are not cleared; they
    still hold the saved credentials. *)
Theorem part002_open_never_ends : forall u keys creds_json s,
  fst (on_open u keys creds_json s) = None /\
  count_eff ends_or_clears (log (snd (on_open u keys creds_json s)))
    = count_eff ends_or_clears (log s) /\
  MemAdapter.obj_get (vfiles (snd (on_open u keys creds_json s))) (js "creds.json")
    = Some creds_json.
Proof.
  intros u keys cj s; split; [ | split ].
  - unfold on_open, try_finally; destruct (try_catch _ _ s); reflexivity.
  - assert (H : Adds ends_or_clears 0 (on_open u keys cj)).
    { unfold on_open; apply adds_try_finally; [ | auto with adds ].
      apply adds_try_catch; [ | auto with adds ].
      apply adds_bind0; [ apply saveKeys_adds | intros _ ].
      unfold saveCreds; repeat adds0_step;
        first [ apply upload_entries_adds | apply send_message_adds; reflexivity ]. }
    rewrite H; lia.
  - destruct (saveKeys_ok keys s) as [o Ho].
    set (rest := entries <- gets vfiles ;;
                 upload_entries u entries ;;
                 send_message u ;;
                 (if image u then send_message u else ret tt)).
    assert (Hrest : VPres rest).
    { apply vpres_bind; [ apply vpres_gets | intro es ].
      apply vpres_bind; [ apply vpres_upload_entries | intros _ ].
      apply vpres_bind; [ apply vpres_send_message | intros _ ].
      destruct (image u); [ apply vpres_send_message | apply vpres_ret ]. }
    set (s1 := mkSt (headersSent s) o (sid s) (log s)) in Ho.
    set (s2 := mkSt (headersSent s) (MemAdapter.obj_set o (js "creds.json") cj)
                    (sid s) (log s)).
    assert (Hs : snd (on_open u keys cj s) = snd (rest s2)).
    { unfold on_open, try_finally, try_catch, bind at 1.
      rewrite Ho; fold rest.
      change (saveCreds cj ;; rest) with (bind (saveCreds cj) (fun _ => rest)).
      unfold bind at 1.
      replace (saveCreds cj s1) with (Some tt, s2) by reflexivity.
      destruct (rest s2) as [[[]|] s3]; reflexivity. }
    rewrite Hs, Hrest; apply AdapterClaims.obj_get_set_same.
Qed.

End Part002Facts.

(** ** The module-level [session] of server.js *)
Module GuardExtras.
Import Guard.











End GuardExtras.

(** ** The directory-based variants *)
Module DirFlowFacts.
Import DirFlow.

Section Preserve.
Variable I : St -> Prop.

(** A computation that keeps [I], whether it returns or throws. *)
Definition Pres {A} (m : M A) : Prop := forall s, I s -> I (snd (m s)).

Lemma pres_ret : forall A (a : A), Pres (ret a).
Proof. intros A a s H; exact H. Qed.

Lemma pres_throw : forall A, Pres (@throw A).
Proof. intros A s H; exact H. Qed.

Lemma pres_gets : forall A (f : St -> A), Pres (gets f).
Proof. intros A f s H; exact H. Qed.

Lemma pres_modify : forall f, (forall s, I s -> I (f s)) -> Pres (modify f).
Proof. intros f Hf s H; apply Hf, H. Qed.

Lemma pres_bind : forall A B (m : M A) (k : A -> M B),
  Pres m -> (forall a, Pres (k a)) -> Pres (bind m k).
Proof.
  intros A B m k Hm Hk s H; unfold bind.
  specialize (Hm s H); destruct (m s) as [[a|] s']; simpl in *; [ apply Hk | ]; exact Hm.
Qed.

Lemma pres_try_catch : forall A (m h : M A), Pres m -> Pres h -> Pres (try_catch m h).
Proof.
  intros A m h Hm Hh s H; unfold try_catch.
  specialize (Hm s H); destruct (m s) as [[a|] s']; simpl in *; [ | apply Hh ]; exact Hm.
Qed.

Lemma pres_try_finally : forall A (m : M A) (f : M unit),
  Pres m -> Pres f -> Pres (try_finally m f).
Proof.
  intros A m f Hm Hf s H; unfold try_finally.
  specialize (Hm s H); destruct (m s) as [r s1]; simpl in Hm.
  specialize (Hf s1 Hm); destruct (f s1) as [r2 s2]; exact Hf.
Qed.

Lemma pres_detach : forall (m : M unit), Pres m -> Pres (detach m).
Proof. intros m Hm s H; apply Hm, H. Qed.

End Preserve.

Create HintDb pres.
#[export] Hint Resolve pres_ret pres_throw pres_gets pres_detach : pres.

(** One step of the proof that a computation keeps an invariant; [prim]
    handles the primitives that change the state. *)
Ltac pres_step prim :=
  match goal with
  | |- Pres _ (bind _ _) => apply pres_bind; [ | intro ]
  | |- Pres _ (try_catch _ _) => apply pres_try_catch
  | |- Pres _ (try_finally _ _) => apply pres_try_finally
  | |- Pres _ (detach _) => apply pres_detach
  | |- Pres _ (if ?b then _ else _) => destruct b
  | |- Pres _ (match ?x with _ => _ end) => destruct x
  | |- Pres _ _ => solve [ auto with pres | prim ]
  end.

(** At most one response: none while the headers are not sent. *)
Definition OneResp (s : St) : Prop :=
  (count_eff is_response (log s) <= 1)%nat /\
  (headersSent s = false -> count_eff is_response (log s) = 0%nat).

Lemma dir_count_eff_snoc : forall p l e,
  count_eff p (l ++ [e]) = (count_eff p l + if p e then 1 else 0)%nat.
Proof.
  intros p l e; unfold count_eff; rewrite filter_app, length_app; simpl.
  destruct (p e); reflexivity.
Qed.

Lemma oneresp_emit : forall e, is_response e = false -> Pres OneResp (emit e).
Proof.
  intros e He; apply pres_modify; intros [] [H1 H2]; unfold OneResp; simpl in *.
  rewrite dir_count_eff_snoc, He, Nat.add_0_r; split; assumption.
Qed.

Lemma oneresp_respond_if_unsent : forall st c, Pres OneResp (respond_if_unsent st c).
Proof.
  intros st c [hs dir lis ss tm l] [H1 H2]; unfold respond_if_unsent, bind, gets.
  destruct hs; simpl in *; [ split; assumption | ].
  unfold OneResp; simpl; rewrite dir_count_eff_snoc, (H2 eq_refl); simpl.
  split; [ lia | discriminate ].
Qed.

Lemma oneresp_keep : forall f,
  (forall s, headersSent (f s) = headersSent s /\ log (f s) = log s) ->
  Pres OneResp (modify f).
Proof.
  intros f Hf; apply pres_modify; intros s [H1 H2].
  destruct (Hf s) as [E1 E2]; unfold OneResp; rewrite E1, E2; split; assumption.
Qed.

Ltac oneresp_prim :=
  first [ apply oneresp_respond_if_unsent
        | apply oneresp_emit; reflexivity
        | apply oneresp_keep; intros; split; reflexivity ].

Lemma oneresp_ensure_dir : forall o, Pres OneResp (ensure_dir o).
Proof.
  intros o; unfold ensure_dir, set_dir; repeat pres_step oneresp_prim.
Qed.

Lemma oneresp_remove_dir : forall ok, Pres OneResp (remove_dir ok).
Proof. intros ok; unfold remove_dir, set_dir; repeat pres_step oneresp_prim. Qed.

Lemma oneresp_make_socket : Pres OneResp make_socket.
Proof.
  unfold make_socket, set_session, set_listening; repeat pres_step oneresp_prim.
Qed.

Lemma oneresp_listen_conn : Pres OneResp listen_conn.
Proof. unfold listen_conn, set_listening; repeat pres_step oneresp_prim. Qed.

Lemma oneresp_pairing : forall o p, Pres OneResp (pairing o p).
Proof. intros o p; unfold pairing; repeat pres_step oneresp_prim. Qed.

#[export] Hint Resolve oneresp_ensure_dir oneresp_remove_dir oneresp_make_socket
  oneresp_listen_conn oneresp_pairing : pres.

(** The /pair handler from a state where nothing was answered yet. *)
Lemma oneresp_pair_route : forall conn number s,
  (forall p, Pres OneResp (conn p)) -> OneResp s -> headersSent s = false ->
  OneResp (snd (pair_route conn number s)).
Proof.
  intros conn number s Hc Hs Hh.
  destruct number as [[|d ds]|].
  2: { revert s Hs Hh; intros s Hs _; revert s Hs.
       change (Pres OneResp (pair_route conn (Some (d :: ds)))).
       unfold pair_route; repeat pres_step ltac:(first [ apply Hc | oneresp_prim ]). }
  all: destruct s as [hs dir lis ss tm l]; destruct Hs as [H1 H2]; simpl in *; subst hs;
       unfold OneResp; simpl; rewrite dir_count_eff_snoc, (H2 eq_refl); simpl;
       split; [ lia | discriminate ].
Qed.

Lemma oneresp_connector001 : forall o p, Pres OneResp (Part001Conn.connector o p).
Proof. intros o p; unfold Part001Conn.connector; repeat pres_step oneresp_prim. Qed.

#[export] Hint Resolve oneresp_connector001 : pres.

Lemma oneresp_deliver001 : forall p evs, Pres OneResp (Part001Conn.deliver p evs).
Proof.
  intros p evs; induction evs as [|ev rest IH]; simpl; [ auto with pres | ].
  apply pres_bind; [ | intros _; exact IH ].
  unfold Part001Conn.on_update, Part001Conn.on_open, Part001Conn.on_close,
    set_listening, set_timers.
  repeat pres_step oneresp_prim.
Qed.

Lemma oneresp_initialize : forall o p, Pres OneResp (Part000Conn.initialize o p).
Proof.
  intros o p; unfold Part000Conn.initialize, Part000Conn.cleanupSessionDir.
  repeat pres_step oneresp_prim.
Qed.

Lemma oneresp_deliver000 : forall evs, Pres OneResp (Part000Conn.deliver evs).
Proof.
  intros evs; induction evs as [|ev rest IH]; simpl; [ auto with pres | ].
  apply pres_bind; [ | intros _; exact IH ].
  unfold Part000Conn.on_update, Part000Conn.on_open, Part000Conn.on_close,
    Part000Conn.cleanup, Part000Conn.cleanupSessionDir, set_session.
  repeat pres_step oneresp_prim.
Qed.

Lemma oneresp_init : forall d, OneResp (init d).
Proof. intros d; split; [ exact (le_S _ _ (le_n 0)) | reflexivity ]. Qed.

(** X14: in both directory-based variants every response write after the
    400 answer is guarded by [!res.headersSent], so a /pair request gets at
    most one response, whatever its socket's events do afterwards,
    including the reconnects of part_001, which call [connector] again with
    the same [res]. *)
Theorem dir_variants_one_response : forall o number d evs1 evs0,
  (count_eff is_response
     (log (snd (Part001Conn.flow o number evs1 (init d)))) <= 1)%nat /\
  (count_eff is_response
     (log (snd (Part000Conn.flow o number evs0 (init d)))) <= 1)%nat.
Proof.
  intros o number d evs1 evs0; split.
  - unfold Part001Conn.flow, bind, detach at 1; simpl.
    pose proof (oneresp_pair_route (Part001Conn.connector o) number (init d)
                  (oneresp_connector001 o) (oneresp_init d) eq_refl) as H.
    destruct number as [[|c cs]|]; [ apply H | | apply H ].
    apply (oneresp_deliver001 _ evs1 _ H).
  - unfold Part000Conn.flow, bind, detach at 1; simpl.
    pose proof (oneresp_pair_route (Part000Conn.initialize o) number (init d)
                  (oneresp_initialize o) (oneresp_init d) eq_refl) as H.
    apply (oneresp_deliver000 evs0 _ H).
Qed.

(** The number of effects of a kind stays [n]. *)
Definition CountIs (q : Effect -> bool) (n : nat) (s : St) : Prop :=
  count_eff q (log s) = n.

Lemma countis_emit : forall q n e, q e = false -> Pres (CountIs q n) (emit e).
Proof.
  intros q n e He; apply pres_modify; intros [] H; unfold CountIs in *; simpl in *.
  rewrite dir_count_eff_snoc, He, Nat.add_0_r; exact H.
Qed.

Lemma countis_keep : forall q n f,
  (forall s, log (f s) = log s) -> Pres (CountIs q n) (modify f).
Proof.
  intros q n f Hf; apply pres_modify; intros s H; unfold CountIs; rewrite Hf; exact H.
Qed.

Lemma countis_respond : forall q n st c,
  q (FResponse st c) = false -> Pres (CountIs q n) (respond st c).
Proof.
  intros q n st c Hq [] H; unfold CountIs, respond in *; simpl in *.
  rewrite dir_count_eff_snoc, Hq, Nat.add_0_r; exact H.
Qed.

Lemma countis_respond_if_unsent : forall q n st c,
  q (FResponse st c) = false -> Pres (CountIs q n) (respond_if_unsent st c).
Proof.
  intros q n st c Hq; unfold respond_if_unsent.
  apply pres_bind; [ apply pres_gets | intros [] ];
    [ apply pres_ret | apply countis_respond, Hq ].
Qed.

Ltac countis_prim :=
  first [ apply countis_respond_if_unsent; reflexivity
        | apply countis_respond; reflexivity
        | apply countis_emit; reflexivity
        | apply countis_keep; intros; reflexivity ].

Lemma no_end_initialize : forall o number,
  Pres (CountIs is_session_end 0) (pair_route (Part000Conn.initialize o) number).
Proof.
  intros o number; unfold pair_route, Part000Conn.initialize, Part000Conn.cleanupSessionDir,
    ensure_dir, remove_dir, make_socket, listen_conn, pairing,
    set_dir, set_session, set_listening.
  repeat pres_step countis_prim.
Qed.

(** Sockets ended plus the socket [this.session] still names: at most
    one. *)
Definition EndOnce (s : St) : Prop :=
  (count_eff is_session_end (log s) + (if session_set s then 1 else 0) <= 1)%nat.

Lemma endonce_emit : forall e, is_session_end e = false -> Pres EndOnce (emit e).
Proof.
  intros e He; apply pres_modify; intros [] H; unfold EndOnce in *; simpl in *.
  rewrite dir_count_eff_snoc, He; lia.
Qed.

Lemma endonce_keep : forall f,
  (forall s, log (f s) = log s /\ session_set (f s) = session_set s) ->
  Pres EndOnce (modify f).
Proof.
  intros f Hf; apply pres_modify; intros s H; unfold EndOnce in *.
  destruct (Hf s) as [E1 E2]; rewrite E1, E2; exact H.
Qed.

Lemma endonce_respond_if_unsent : forall st c, Pres EndOnce (respond_if_unsent st c).
Proof.
  intros st c; unfold respond_if_unsent.
  apply pres_bind; [ apply pres_gets | intros [] ]; [ apply pres_ret | ].
  intros [] H; unfold EndOnce, respond in *; simpl in *.
  rewrite dir_count_eff_snoc; simpl; lia.
Qed.

Lemma endonce_cleanup : Pres EndOnce Part000Conn.cleanup.
Proof.
  intros [hs dir lis ss tm l] H; unfold EndOnce in *.
  unfold Part000Conn.cleanup, bind, gets, emit, set_session, modify; simpl in *.
  destruct ss; simpl; [ rewrite dir_count_eff_snoc; simpl; lia | exact H ].
Qed.

Ltac endonce_prim :=
  first [ apply endonce_cleanup
        | apply endonce_respond_if_unsent
        | apply endonce_emit; reflexivity
        | apply endonce_keep; intros; split; reflexivity ].

Lemma endonce_deliver000 : forall evs, Pres EndOnce (Part000Conn.deliver evs).
Proof.
  intros evs; induction evs as [|ev rest IH]; simpl; [ auto with pres | ].
  apply pres_bind; [ | intros _; exact IH ].
  unfold Part000Conn.on_update, Part000Conn.on_open, Part000Conn.on_close,
    Part000Conn.cleanupSessionDir, remove_dir, set_dir.
  repeat pres_step endonce_prim.
Qed.

(** X15: part_000 ends its socket at most once: [cleanup()] sets
    [this.session] to null after [session.end()], so the 'open' handler's
    [finally] and any number of 'close' events after it end nothing more. *)
Theorem part000_session_end_once : forall o number d evs,
  (count_eff is_session_end
     (log (snd (Part000Conn.flow o number evs (init d)))) <= 1)%nat.
Proof.
  intros o number d evs; unfold Part000Conn.flow, bind, detach at 1; simpl.
  pose proof (no_end_initialize o number (init d) eq_refl) as H.
  assert (H1 : EndOnce (snd (Part000Conn.pair_handler o number (init d)))).
  { unfold EndOnce; unfold CountIs in H; unfold Part000Conn.pair_handler; rewrite H.
    destruct (session_set _); simpl; lia. }
  pose proof (endonce_deliver000 evs _ H1) as H2; unfold EndOnce in H2; lia.
Qed.

(** X16: in both directory-based variants, when [requestPairingCode]
    rejects, the caller gets one 500 answer and the connector returns
    early: the session directory it made stays, and no [connection.update]
    listener is registered. *)
Theorem pairing_failure_keeps_dir : forall o p d,
  p <> [] -> mkdir_ok o = true -> auth_ok o = true -> version_ok o = true ->
  sock_ok o = true -> registered o = false -> pair_code o = None ->
  (responses (log (snd (Part001Conn.pair_handler o (Some p) (init d))))
     = [FResponse 500 None] /\
   dir_exists (snd (Part001Conn.pair_handler o (Some p) (init d))) = true /\
   ~ In (FListen Server.OnConnectionUpdate)
        (log (snd (Part001Conn.pair_handler o (Some p) (init d))))) /\
  (responses (log (snd (Part000Conn.pair_handler o (Some p) (init d))))
     = [FResponse 500 None] /\
   dir_exists (snd (Part000Conn.pair_handler o (Some p) (init d))) = true /\
   ~ In (FListen Server.OnConnectionUpdate)
        (log (snd (Part000Conn.pair_handler o (Some p) (init d))))).
Proof.
  intros o p d Hp Hm Ha Hv Hs Hr Hc.
  destruct p as [|c cs]; [ congruence | ].
  destruct o as [mk au ve so re pc rm]; simpl in *; subst.
  destruct d; vm_compute; repeat split; intros H;
    repeat (destruct H as [H|H]; [ discriminate H | ]); exact H.
Qed.

Lemma pairing_failure_keeps_dir_witness :
  let o := {| mkdir_ok := true; auth_ok := true; version_ok := true; sock_ok := true;
              registered := false; pair_code := None; rm_ok := true |} in
  dir_exists (snd (Part001Conn.pair_handler o (Some (js "15551234567")) (init false)))
  = true.
Proof.
  intros o.
  destruct (pairing_failure_keeps_dir o (js "15551234567") false)
    as [[_ [H _]] _];
    first [ exact H | discriminate | reflexivity ].
Defined.

(** X17: in both directory-based variants, when the authentication state
    cannot be loaded, the caller gets one 500 answer and the session
    directory is removed. *)
Theorem init_failure_removes_dir : forall o p d,
  p <> [] -> mkdir_ok o = true -> auth_ok o = false -> rm_ok o = true ->
  (responses (log (snd (Part001Conn.pair_handler o (Some p) (init d))))
     = [FResponse 500 None] /\
   dir_exists (snd (Part001Conn.pair_handler o (Some p) (init d))) = false) /\
  (responses (log (snd (Part000Conn.pair_handler o (Some p) (init d))))
     = [FResponse 500 None] /\
   dir_exists (snd (Part000Conn.pair_handler o (Some p) (init d))) = false).
Proof.
  intros o p d Hp Hm Ha Hr.
  destruct p as [|c cs]; [ congruence | ].
  destruct o as [mk au ve so re pc rm]; simpl in *; subst.
  destruct d; vm_compute; repeat split.
Qed.

Lemma init_failure_removes_dir_witness :
  let o := {| mkdir_ok := true; auth_ok := false; version_ok := true; sock_ok := true;
              registered := false; pair_code := None; rm_ok := true |} in
  dir_exists (snd (Part000Conn.pair_handler o (Some (js "15551234567")) (init true)))
  = false.
Proof.
  intros o.
  destruct (init_failure_removes_dir o (js "15551234567") true)
    as [_ [_ H]];
    first [ exact H | discriminate | reflexivity ].
Defined.

End DirFlowFacts.

(** ** The pairing-code format *)
Module PairCodeExtras.
Import PairCode.

Definition not_dash (c : Z) : bool := negb (c =? 45).

Lemma chunks_concat : forall f s, (List.length s <= f)%nat -> List.concat (chunks f s) = s.
Proof.
  induction f as [|f IH]; intros s Hs.
  - destruct s; [ reflexivity | simpl in Hs; lia ].
  - destruct s as [|c s']; [ reflexivity | ].
    change (List.concat (chunks (S f) (c :: s')))
      with (firstn 4 (c :: s') ++ List.concat (chunks f (skipn 4 (c :: s')))).
    rewrite IH; [ apply firstn_skipn | rewrite length_skipn; simpl in *; lia ].
Qed.

Lemma chunks_sub : forall f s x, In x (chunks f s) -> forall c, In c x -> In c s.
Proof.
  induction f as [|f IH]; intros s x Hx c Hc; [ destruct Hx | ].
  destruct s as [|c0 s']; [ destruct Hx | ].
  change (chunks (S f) (c0 :: s'))
    with (firstn 4 (c0 :: s') :: chunks f (skipn 4 (c0 :: s'))) in Hx.
  destruct Hx as [<-|Hx].
  - rewrite <- (firstn_skipn 4 (c0 :: s')); apply in_or_app; left; exact Hc.
  - rewrite <- (firstn_skipn 4 (c0 :: s')); apply in_or_app; right.
    apply (IH _ _ Hx _ Hc).
Qed.

Lemma filter_join : forall l,
  filter not_dash (join (js "-") l) = List.concat (map (filter not_dash) l).
Proof.
  induction l as [|x l IH]; [ reflexivity | ].
  destruct l as [|y l].
  - simpl; rewrite app_nil_r; reflexivity.
  - change (join (js "-") (x :: y :: l)) with (x ++ js "-" ++ join (js "-") (y :: l)).
    rewrite !filter_app, IH; reflexivity.
Qed.

(** X18: the code sent to the caller carries the raw pairing code
    unchanged: removing the '-' separators from it gives the raw code back
    (for a non-empty code of characters that [.] matches and that has no
    '-' of its own). *)
Theorem formatCode_roundtrip : forall code,
  code <> [] -> no_line_terminator code -> ~ In 45 code ->
  exists f, formatCode code = Some f /\ filter not_dash f = code.
Proof.
  intros code Hne Hlt Hd.
  unfold formatCode, str_match_dot4.
  rewrite PairCodeClaims.match_all_plain by exact Hlt.
  destruct code as [|c s]; [ congruence | ].
  set (l := chunks (List.length (c :: s)) (c :: s)).
  assert (Hl : l <> []) by discriminate.
  destruct l as [|g gs] eqn:El; [ congruence | ].
  eexists; split; [ reflexivity | ].
  rewrite <- El, filter_join.
  rewrite map_ext_in with (g := fun x => x).
  - rewrite map_id; apply chunks_concat; lia.
  - intros x Hx; apply forallb_filter_id, forallb_forall.
    intros c' Hc'; unfold not_dash.
    destruct (c' =? 45) eqn:E; [ | reflexivity ].
    apply Z.eqb_eq in E; subst c'; exfalso; apply Hd.
    subst l; apply (chunks_sub _ _ _ Hx _ Hc').
Qed.

Lemma formatCode_roundtrip_witness :
  exists f, formatCode (js "ABCD1234") = Some f /\ filter not_dash f = js "ABCD1234".
Proof.
  apply formatCode_roundtrip.
  - discriminate.
  - unfold no_line_terminator; repeat constructor.
  - vm_compute; intuition discriminate.
Defined.

End PairCodeExtras.
